(** * Lab-report table interpretation: a shallow embedding of [main.py]

    The development follows the source top-down:

    - Python text primitives ([str.strip], [str.lower], [str.split],
      [' '.join], [in]) on strings whose code points are below 256;
    - the fragment of Python's [re] the three patterns of the source use,
      as a greedy backtracking matcher;
    - Python's [float()] on text, landing in IEEE-754 binary64
      ([SpecFloat.spec_float] at precision 53);
    - [parse_reference_range] and [is_out_of_range];
    - the pandas cleaning steps, the column classifier, the row loop and the
      request handler [get_lab_tests]. *)

From Stdlib Require Import ZArith NArith Ascii String SpecFloat Lia Bool.
From Stdlib Require Import DecimalString.
From stdpp Require Import gmap strings list fin_maps.

Local Open Scope string_scope.
Local Open Scope bool_scope.
Local Open Scope nat_scope.

(** ** Characters *)

Module Char.

Definition code (c : ascii) : N := N_of_ascii c.

Definition between (lo hi : N) (c : ascii) : bool :=
  ((lo <=? code c) && (code c <=? hi))%N.

(** [\d] on text patterns and [str.isdecimal]: below code point 256 the
    only decimal digits are ['0'..'9']. *)
Definition is_digit : ascii -> bool := between 48 57.

(** [str.isspace], [\s], and the characters [str.strip()] and
    [str.split()] treat as blanks: TAB..CR, FS..US, SPACE, NEL, NBSP. *)
Definition is_space (c : ascii) : bool :=
  between 9 13 c || between 28 32 c || (code c =? 133)%N || (code c =? 160)%N.

(** [[a-zA-Z]] *)
Definition is_alpha (c : ascii) : bool := between 97 122 c || between 65 90 c.

Definition lit (x : ascii) (c : ascii) : bool := Ascii.eqb x c.

Definition either (p q : ascii -> bool) (c : ascii) : bool := p c || q c.

(** [str.lower] on one character: A-Z, and the Latin-1 capitals
    U+00C0..U+00DE except the multiplication sign U+00D7. *)
Definition lower (c : ascii) : ascii :=
  if between 65 90 c || (between 192 222 c && negb (code c =? 215)%N)
  then ascii_of_N (code c + 32)
  else c.

End Char.

(** ** Python [str] methods *)

Module Str.

Fixpoint lower (s : string) : string :=
  match s with
  | EmptyString => EmptyString
  | String c s' => String (Char.lower c) (lower s')
  end.

Fixpoint lstrip (s : string) : string :=
  match s with
  | String c s' => if Char.is_space c then lstrip s' else s
  | EmptyString => EmptyString
  end.

(** Drops trailing blanks: a character is kept when it is not a blank or
    when something is kept after it. *)
Fixpoint rstrip (s : string) : string :=
  match s with
  | EmptyString => EmptyString
  | String c s' =>
      match rstrip s' with
      | EmptyString => if Char.is_space c then EmptyString else String c EmptyString
      | t => String c t
      end
  end.

(** [s.strip()] *)
Definition strip (s : string) : string := rstrip (lstrip s).

(** [sub in s] for text. *)
Fixpoint contains (sub s : string) : bool :=
  String.prefix sub s ||
  match s with
  | EmptyString => false
  | String _ s' => contains sub s'
  end.

(** [s.split()] with no separator: maximal runs of non-blank characters.
    [cur] holds the token being read, most recent character first. *)
Fixpoint split_aux (cur : list ascii) (s : string) : list string :=
  let flush (rest : list string) :=
    match cur with
    | [] => rest
    | _ => string_of_list_ascii (rev cur) :: rest
    end in
  match s with
  | EmptyString => flush []
  | String c s' =>
      if Char.is_space c then flush (split_aux [] s')
      else split_aux (c :: cur) s'
  end.

Definition split (s : string) : list string := split_aux [] s.

(** [sep.join(parts)] *)
Fixpoint join (sep : string) (parts : list string) : string :=
  match parts with
  | [] => EmptyString
  | [p] => p
  | p :: rest => p ++ sep ++ join sep rest
  end.

(** [s in [a, b, ...]] *)
Definition among (s : string) (l : list string) : bool :=
  existsb (String.eqb s) l.

End Str.

(** ** The fragment of [re] used by the source

    Every pattern of the source is a sequence of quantified character
    classes, with capture groups and anchors.  [re.match] tries the pattern
    at the start of the text only; quantifiers are greedy and give back
    characters one at a time when the rest of the pattern fails. *)

Module Re.

Inductive token :=
| Open                          (* (        *)
| Close                         (* )        *)
| Bol                           (* ^        *)
| Eol                           (* $        *)
| One  (p : ascii -> bool)      (* [..]     *)
| Opt  (p : ascii -> bool)      (* [..]?    *)
| Star (p : ascii -> bool)      (* [..]*    *)
| Plus (p : ascii -> bool).     (* [..]+    *)

Definition pattern := list token.

(** What the matcher has consumed so far. *)
Record progress := {
  consumed : nat;                     (* characters matched so far *)
  opened   : list ascii;              (* characters matched since the last parenthesis, reversed *)
  closed   : list string              (* finished groups, most recent first *)
}.

Definition start : progress :=
  {| consumed := 0; opened := []; closed := [] |}.

Definition eat (c : ascii) (st : progress) : progress :=
  {| consumed := S (consumed st); opened := c :: opened st; closed := closed st |}.

Definition open_group (st : progress) : progress :=
  {| consumed := consumed st; opened := []; closed := closed st |}.

Definition close_group (st : progress) : progress :=
  {| consumed := consumed st; opened := [];
     closed := string_of_list_ascii (rev (opened st)) :: closed st |}.

(** [$] without MULTILINE: at the end, or just before a final newline. *)
Definition at_eol (s : string) : bool :=
  match s with
  | EmptyString => true
  | String c EmptyString => Char.lit "010" c
  | _ => false
  end.

Definition orelse {A} (x : option A) (y : option A) : option A :=
  match x with Some _ => x | None => y end.

Section Greedy.
Context {A : Type}.
Variable p : ascii -> bool.
Variable k : string -> progress -> option A.

(** As many [p] as possible, then [k]; one fewer when [k] fails. *)
Fixpoint star (s : string) (st : progress) : option A :=
  match s with
  | String c s' =>
      if p c then orelse (star s' (eat c st)) (k s st) else k s st
  | EmptyString => k s st
  end.

Definition plus (s : string) (st : progress) : option A :=
  match s with
  | String c s' => if p c then star s' (eat c st) else None
  | EmptyString => None
  end.

Definition opt (s : string) (st : progress) : option A :=
  match s with
  | String c s' =>
      if p c then orelse (k s' (eat c st)) (k s st) else k s st
  | EmptyString => k s st
  end.

Definition one (s : string) (st : progress) : option A :=
  match s with
  | String c s' => if p c then k s' (eat c st) else None
  | EmptyString => None
  end.
End Greedy.

(** The groups of the first successful match, in pattern order. *)
Fixpoint run (re : pattern) : string -> progress -> option (list string) :=
  match re with
  | [] => fun _ st => Some (rev (closed st))
  | Open :: k => fun s st => run k s (open_group st)
  | Close :: k => fun s st => run k s (close_group st)
  | Bol :: k => fun s st => if Nat.eqb (consumed st) 0 then run k s st else None
  | Eol :: k => fun s st => if at_eol s then run k s st else None
  | One p :: k => one p (run k)
  | Opt p :: k => opt p (run k)
  | Star p :: k => star p (run k)
  | Plus p :: k => plus p (run k)
  end.

(** [re.match(pattern, text)]: [None] or the captured groups. *)
Definition rmatch (re : pattern) (text : string) : option (list string) :=
  run re text start.

(** Truth value of a match object. *)
Definition matches (re : pattern) (text : string) : bool :=
  match rmatch re text with Some _ => true | None => false end.

Definition digit_or_dot : ascii -> bool := Char.either Char.is_digit (Char.lit ".").

End Re.

(** ** Python [float] *)

Module Float.

Definition prec : Z := 53.
Definition emax : Z := 1024.

(** A Python [float]: an IEEE-754 binary64 datum. *)
Definition float : Type := spec_float.

(** [x < y] on floats; false whenever a NaN is involved. *)
Definition ltb (x y : float) : bool := SFltb x y.

(** The binary64 number nearest to [n / d] (ties to even), for [0 <= n]
    and [0 < d]; this is the rounding of CPython's string-to-double
    conversion. *)
Definition of_ratio (neg : bool) (n d : Z) : float :=
  if (n =? 0)%Z then S754_zero neg
  else
    let '(q, e, l) := SFdiv_core_binary prec emax n 0 d 0 in
    binary_round_aux prec emax neg q e l.

(** [m * 2^e] as a binary64 number, used to name results. *)
Definition dyadic (m e : Z) : float := binary_normalize prec emax m e false.

Definition digit_value (c : ascii) : Z := Z.of_N (Char.code c) - 48.

(** Value of a run of decimal digits, continuing from [acc]. *)
Fixpoint digits_value (acc : Z) (s : string) : Z :=
  match s with
  | EmptyString => acc
  | String c s' => digits_value (10 * acc + digit_value c) s'
  end.

(** Longest prefix of decimal digits, and what follows it. *)
Fixpoint span_digits (s : string) : string * string :=
  match s with
  | String c s' =>
      if Char.is_digit c
      then let '(d, r) := span_digits s' in (String c d, r)
      else (EmptyString, s)
  | EmptyString => (EmptyString, EmptyString)
  end.

Definition take_sign (s : string) : bool * string :=
  match s with
  | String "-" s' => (true, s')
  | String "+" s' => (false, s')
  | _ => (false, s)
  end.

(** The exponent part: [e] or [E], an optional sign and at least one
    digit.  When it is malformed nothing is consumed. *)
Definition take_exponent (s : string) : Z * string :=
  match s with
  | String c s' =>
      if Char.lit "e" c || Char.lit "E" c then
        let '(neg, s1) := take_sign s' in
        let '(ds, rest) := span_digits s1 in
        match ds with
        | EmptyString => (0%Z, s)
        | _ => ((if neg then - digits_value 0 ds else digits_value 0 ds)%Z, rest)
        end
      else (0%Z, s)
  | EmptyString => (0%Z, s)
  end.

(** A decimal literal without its sign: digits with an optional point and
    an optional exponent, at least one digit in the mantissa, nothing left
    over. *)
Definition decimal (neg : bool) (s : string) : option float :=
  let '(ip, s1) := span_digits s in
  let '(fp, s2) :=
    match s1 with
    | String "." s1' => span_digits s1'
    | _ => (EmptyString, s1)
    end in
  match ip ++ fp with
  | EmptyString => None
  | mant =>
      let '(ex, rest) := take_exponent s2 in
      match rest with
      | EmptyString =>
          let e10 := (ex - Z.of_nat (String.length fp))%Z in
          Some (of_ratio neg
                  (digits_value 0 mant * 10 ^ Z.max e10 0)
                  (10 ^ Z.max (- e10) 0))
      | _ => None
      end
  end.

(** [inf], [infinity] and [nan] in any letter case. *)
Definition special (neg : bool) (s : string) : option float :=
  let l := Str.lower s in
  if String.eqb l "inf" || String.eqb l "infinity" then Some (S754_infinity neg)
  else if String.eqb l "nan" then Some S754_nan
  else None.

(** The blanks [float()] strips: TAB..CR and SPACE; NEL and NBSP are
    turned into SPACE before parsing. *)
Definition is_blank (c : ascii) : bool :=
  Char.between 9 13 c || (Char.code c =? 32)%N
  || (Char.code c =? 133)%N || (Char.code c =? 160)%N.

Fixpoint lstrip (s : string) : string :=
  match s with
  | String c s' => if is_blank c then lstrip s' else s
  | EmptyString => EmptyString
  end.

Fixpoint rstrip (s : string) : string :=
  match s with
  | EmptyString => EmptyString
  | String c s' =>
      match rstrip s' with
      | EmptyString => if is_blank c then EmptyString else String c EmptyString
      | t => String c t
      end
  end.

(** Underscores are allowed only between two digits; they are removed
    before the literal is read.  [prev] is the previous character. *)
Fixpoint drop_underscores (prev : ascii) (s : string) : option string :=
  match s with
  | EmptyString => if Char.lit "_" prev then None else Some EmptyString
  | String c s' =>
      if Char.lit "_" c then
        if Char.is_digit prev then drop_underscores c s' else None
      else if Char.lit "_" prev && negb (Char.is_digit c) then None
      else option_map (String c) (drop_underscores c s')
  end.

(** [float(text)]: [None] stands for [ValueError]. *)
Definition of_string (text : string) : option float :=
  match drop_underscores "000" text with
  | None => None
  | Some s =>
      let '(neg, body) := take_sign (rstrip (lstrip s)) in
      Re.orelse (special neg body) (decimal neg body)
  end.

End Float.

(** ** Exceptions

    A Python expression either returns a value or raises. *)

Inductive outcome (A : Type) : Type :=
| Returns (a : A)
| Raises.
Arguments Returns {A} a.
Arguments Raises {A}.

#[global] Instance outcome_ret : MRet outcome := fun A a => Returns a.

#[global] Instance outcome_bind : MBind outcome := fun A B f x =>
  match x with
  | Returns a => f a
  | Raises => Raises
  end.

(** [try: body except Exception: handler]. *)
Definition try_except {A} (body : outcome A) (handler : A) : A :=
  match body with
  | Returns a => a
  | Raises => handler
  end.

(** [float(text)] as an expression: [ValueError] when the text is not a
    float literal. *)
Definition float (text : string) : outcome Float.float :=
  match Float.of_string text with
  | Some x => Returns x
  | None => Raises
  end.

(** ** [parse_reference_range] and [is_out_of_range] *)

(** [r"([\d.]+)\s*-\s*([\d.]+)"] *)
Definition range_pattern : Re.pattern :=
  [ Re.Open; Re.Plus Re.digit_or_dot; Re.Close;
    Re.Star Char.is_space; Re.One (Char.lit "-"); Re.Star Char.is_space;
    Re.Open; Re.Plus Re.digit_or_dot; Re.Close ].

(** [match.group(i)], for [1 <= i]. *)
Definition group (m : list string) (i : nat) : string := nth (i - 1) m EmptyString.

Definition parse_reference_range (ref_range : string)
  : outcome (option Float.float * option Float.float) :=
  match Re.rmatch range_pattern ref_range with
  | Some m =>
      low ← float (group m 1);
      high ← float (group m 2);
      mret (Some low, Some high)
  | None => mret (None, None)
  end.

(** [Some true] / [Some false] for the two booleans, [None] for Python's
    [None]. *)
Definition is_out_of_range (value ref_range : string) : option bool :=
  try_except
    ('(low, high) ← parse_reference_range ref_range;
     value ← float value;
     match low, high with
     | Some low, Some high =>
         mret (Some (Float.ltb value low || Float.ltb high value))
     | _, _ => mret None
     end)
    None.

(** ** Data frames

    A pandas [DataFrame] as the handler uses it: column labels and rows of
    object cells.  A label is what [df.columns] holds (an integer position
    when the frame was built without a header, text otherwise).  A cell is
    the [None] the table extractor leaves for an unreadable cell, the
    [np.nan] written by [replace], or text. *)

Inductive label :=
| LInt (n : Z)
| LStr (s : string).

#[global] Instance label_eq_dec : EqDecision label.
Proof. solve_decision. Defined.

Inductive cell :=
| CNone
| CNaN
| CStr (s : string).

#[global] Instance cell_eq_dec : EqDecision cell.
Proof. solve_decision. Defined.

(** [str(x)] *)
Definition str_label (l : label) : string :=
  match l with
  | LInt n => NilZero.string_of_int (Z.to_int n)
  | LStr s => s
  end.

Definition str_cell (c : cell) : string :=
  match c with
  | CNone => "None"
  | CNaN => "nan"
  | CStr s => s
  end.

(** [pd.isna] / [pd.notna] on a cell. *)
Definition isna (c : cell) : bool :=
  match c with
  | CStr _ => false
  | _ => true
  end.

Definition notna (c : cell) : bool := negb (isna c).

Record DataFrame := {
  columns : list label;
  rows : list (list cell)
}.

(** Every row has one cell per column. *)
Definition rectangular (df : DataFrame) : Prop :=
  Forall (fun row => length row = length (columns df)) (rows df).

(** [df.shape] *)
Definition shape (df : DataFrame) : nat * nat :=
  (length (rows df), length (columns df)).

(** [df.replace(old, np.nan)] for a text [old]: cells equal to it become
    [np.nan]. *)
Definition replace_cell (old : string) (c : cell) : cell :=
  match c with
  | CStr s => if String.eqb s old then CNaN else c
  | _ => c
  end.

Definition replace (old : string) (df : DataFrame) : DataFrame :=
  {| columns := columns df;
     rows := map (map (replace_cell old)) (rows df) |}.

(** [df.dropna(how='all')]: a row stays when it has a cell that is not
    missing. *)
Definition dropna_rows (df : DataFrame) : DataFrame :=
  {| columns := columns df;
     rows := filter (fun row => Is_true (existsb notna row)) (rows df) |}.

(** Keeps the entries of [l] whose position is marked in [mask]. *)
Fixpoint select {A} (mask : list bool) (l : list A) : list A :=
  match mask, l with
  | b :: mask', x :: l' => if b then x :: select mask' l' else select mask' l'
  | _, _ => []
  end.

(** Position [j] holds a value that is not missing in some row. *)
Definition column_has_value (rws : list (list cell)) (j : nat) : bool :=
  existsb (fun row => match row !! j with Some c => notna c | None => false end) rws.

(** [df.dropna(axis=1, how='all')]: a column stays when it has a cell that
    is not missing. *)
Definition dropna_columns (df : DataFrame) : DataFrame :=
  let mask := map (column_has_value (rows df)) (seq 0 (length (columns df))) in
  {| columns := select mask (columns df);
     rows := map (select mask) (rows df) |}.

(** Lines 120-123 of the handler. *)
Definition clean (df : DataFrame) : DataFrame :=
  let df := replace "None" df in
  let df := replace EmptyString df in
  let df := dropna_rows df in
  let df := dropna_columns df in
  df.

(** Lines 126-128: the size test on the cleaned frame. *)
Definition too_small (df : DataFrame) : bool :=
  (fst (shape df) <? 2)%nat || (snd (shape df) <? 2)%nat.

(** The normalizer: the cleaned frame, or [None] when it is skipped. *)
Definition normalize (df : DataFrame) : option DataFrame :=
  let df := clean df in
  if too_small df then None else Some df.

(** Position of a label in [df.columns]. *)
Definition index_of (col : label) (cols : list label) : option nat :=
  fst <$> list_find (fun c => c = col) cols.

(** [df[col]]: the cells of the column labelled [col].  The labels of a
    frame are distinct (they are the positions [table.df] numbers the
    columns with), so the first column carrying the label is the column. *)
Definition column (df : DataFrame) (col : label) : list cell :=
  match index_of col (columns df) with
  | Some j => omap (fun row => row !! j) (rows df)
  | None => []
  end.

(** [df[col].dropna().astype(str).tolist()] *)
Definition sample_values_of (df : DataFrame) (col : label) : list string :=
  map str_cell (filter (fun c => Is_true (notna c)) (column df col)).

(** ** Column classification (lines 134-181) *)

Definition name_words : list string :=
  ["test"; "parameter"; "investigation"; "rbc"; "wbc"; "hb"; "platelet"].

Definition unit_words : list string :=
  ["g/dl"; "mg/dl"; "iu/l"; "mmol/l"; "/cumm"; "%"; "fl"; "pg"].

(** [r'^\d*\.?\d+\s*[a-zA-Z/]*$'] *)
Definition value_pattern : Re.pattern :=
  [ Re.Bol; Re.Star Char.is_digit; Re.Opt (Char.lit "."); Re.Plus Char.is_digit;
    Re.Star Char.is_space; Re.Star (Char.either Char.is_alpha (Char.lit "/"));
    Re.Eol ].

(** [r'[\d.]+[\s-]+[\d.]+'] *)
Definition pair_pattern : Re.pattern :=
  [ Re.Plus Re.digit_or_dot;
    Re.Plus (Char.either Char.is_space (Char.lit "-"));
    Re.Plus Re.digit_or_dot ].

(** [any(any(w in val.lower() for w in words) for val in values)] *)
Definition any_word (words : list string) (values : list string) : bool :=
  existsb (fun val => existsb (fun w => Str.contains w (Str.lower val)) words) values.

(** [any(re.match(p, val.strip()) for val in values)] *)
Definition any_match (p : Re.pattern) (values : list string) : bool :=
  existsb (fun val => Re.matches p (Str.strip val)) values.

(** The [if]/[elif] chain of lines 146-165: the key the column is stored
    under, if any branch is taken. *)
Definition claimed_key (col_lower : string) (sample_values : list string)
  : option string :=
  if any_word name_words sample_values then Some "test_name"
  else if any_match value_pattern sample_values then Some "test_value"
  else if any_match pair_pattern sample_values then Some "bio_reference_range"
  else if any_word unit_words sample_values then Some "test_unit"
  else if Str.contains "test" col_lower
          && (Str.contains "name" col_lower || Str.contains "parameter" col_lower)
       then Some "test_name"
  else if Str.contains "value" col_lower || Str.contains "result" col_lower
       then Some "test_value"
  else if Str.contains "range" col_lower || Str.contains "reference" col_lower
       then Some "bio_reference_range"
  else if Str.contains "unit" col_lower then Some "test_unit"
  else None.

(** What one column contributes: nothing when it has no sample values
    ([continue]) or when no branch is taken. *)
Definition key_of_column (df : DataFrame) (col : label) : option string :=
  let col_lower := Str.lower (str_label col) in
  let sample_values := sample_values_of df col in
  match sample_values with
  | [] => None
  | _ => claimed_key col_lower sample_values
  end.

(** One iteration of [for col in df.columns]. *)
Definition classify_step (df : DataFrame) (col_map : gmap string label) (col : label)
  : gmap string label :=
  match key_of_column df col with
  | Some key => <[key := col]> col_map
  | None => col_map
  end.

(** Lines 134-165: [col_map] after the loop over the columns. *)
Definition classify (df : DataFrame) : gmap string label :=
  foldl (classify_step df) ∅ (columns df).

(** [if key not in col_map and len(columns) > i: col_map[key] = columns[i]] *)
Definition fill (key : string) (i : nat) (cols : list label) (col_map : gmap string label)
  : gmap string label :=
  match col_map !! key, cols !! i with
  | None, Some c => <[key := c]> col_map
  | _, _ => col_map
  end.

(** Lines 173-181. *)
Definition positional_fallback (cols : list label) (col_map : gmap string label)
  : gmap string label :=
  let col_map := fill "test_name" 0 cols col_map in
  let col_map := fill "test_value" 1 cols col_map in
  let col_map := fill "bio_reference_range" 2 cols col_map in
  let col_map := fill "test_unit" 3 cols col_map in
  col_map.

(** The classifier on a cleaned frame: [None] when fewer than two keys
    were set (lines 169-171), else the mapping after the fallback. *)
Definition column_mapping (df : DataFrame) : option (gmap string label) :=
  let col_map := classify df in
  if (size col_map <? 2)%nat then None
  else Some (positional_fallback (columns df) col_map).

(** ** Row extraction (lines 183-219) *)

Record LabTest := {
  test_name : string;
  test_value : string;
  bio_reference_range : string;
  test_unit : string;
  lab_test_out_of_range : bool
}.

(** [col_map.get(key, '')]: a label, or the empty text. *)
Definition col_map_get (col_map : gmap string label) (key : string) : label :=
  default (LStr EmptyString) (col_map !! key).

(** [row.get(key, '')] on a row whose index is [cols]. *)
Definition row_get (cols : list label) (row : list cell) (key : label) : cell :=
  match index_of key cols with
  | Some j => default (CStr EmptyString) (row !! j)
  | None => CStr EmptyString
  end.

(** [str(row.get(col_map.get(key, ''), '')).strip()] *)
Definition resolve (cols : list label) (col_map : gmap string label)
    (row : list cell) (key : string) : string :=
  Str.strip (str_cell (row_get cols row (col_map_get col_map key))).

(** [not s or s.lower() in ['none', 'nan', '']] *)
Definition blank (s : string) : bool :=
  String.eqb s EmptyString || Str.among (Str.lower s) ["none"; "nan"; EmptyString].

(** Lines 195-199: the value and unit after the fallback split. *)
Definition split_value_unit (test_value test_unit : string) : string * string :=
  if String.eqb test_unit EmptyString && Str.contains "/" test_value then
    let parts := Str.split test_value in
    if (1 <? length parts)%nat
    then (hd EmptyString parts, Str.join " " (tl parts))
    else (test_value, test_unit)
  else (test_value, test_unit).

(** Lines 207-209: Python's [None] becomes [False]. *)
Definition flag (out_of_range : option bool) : bool :=
  match out_of_range with
  | None => false
  | Some b => b
  end.

(** The statements under [try:] for one row: [Returns None] is the
    [continue] of a skipped row, [Returns (Some t)] the record appended. *)
Definition process_row (cols : list label) (col_map : gmap string label)
    (row : list cell) : outcome (option LabTest) :=
  let test_name := resolve cols col_map row "test_name" in
  let test_value := resolve cols col_map row "test_value" in
  let bio_reference_range := resolve cols col_map row "bio_reference_range" in
  let test_unit := resolve cols col_map row "test_unit" in
  if blank test_name then mret None
  else if blank test_value then mret None
  else
    let '(test_value, test_unit) := split_value_unit test_value test_unit in
    let out_of_range := is_out_of_range test_value bio_reference_range in
    let out_of_range := flag out_of_range in
    mret (Some {| test_name := test_name;
                  test_value := test_value;
                  bio_reference_range := bio_reference_range;
                  test_unit := test_unit;
                  lab_test_out_of_range := out_of_range |}).

Section RowLoop.

(** The body of the [try] block, as a function of the row. *)
Variable body : list cell -> outcome (option LabTest).

(** [try: body except Exception: continue] with [lab_tests.append]. *)
Definition row_step (lab_tests : list LabTest) (row : list cell) : list LabTest :=
  match body row with
  | Returns (Some t) => lab_tests ++ [t]
  | Returns None => lab_tests
  | Raises => lab_tests
  end.

(** [for row_idx, (_, row) in enumerate(df.iterrows())] *)
Definition rows_loop (rws : list (list cell)) (lab_tests : list LabTest)
  : list LabTest :=
  foldl row_step lab_tests rws.

End RowLoop.

(** ** The loop over the tables (lines 116-219) *)

(** One iteration of [for table_idx, table in enumerate(tables)]; the two
    early exits are the [continue] statements. *)
Definition process_table (lab_tests : list LabTest) (df : DataFrame) : list LabTest :=
  let df := clean df in
  if too_small df then lab_tests
  else
    let col_map := classify df in
    if (size col_map <? 2)%nat then lab_tests
    else
      let col_map := positional_fallback (columns df) col_map in
      rows_loop (process_row (columns df) col_map) (rows df) lab_tests.

Definition tables_loop (tables : list DataFrame) : list LabTest :=
  foldl process_table [] tables.

(** ** The request handler [get_lab_tests]

    The calls the handler makes into the upload, OpenCV, img2table,
    Tesseract and the file system are its collaborators; a run of the
    handler is determined by what each of them does. *)

Record LabTestResponse := {
  is_success : bool;
  data : list LabTest
}.

Record Collaborators := {
  (* lines 57-62: reading the upload into a temporary file *)
  save_upload : outcome unit;
  (* line 66: cv2.imread; None when the file does not decode *)
  imread : outcome (option unit);
  (* lines 72-111: preprocessing, OCR set-up and extract_tables, with
     table.df taken for each table found *)
  extract_tables : outcome (list DataFrame);
  (* lines 221-222: os.remove of the two temporary files *)
  remove_files : outcome unit
}.

Definition get_lab_tests (w : Collaborators) : LabTestResponse :=
  try_except
    (_ ← save_upload w;
     img ← imread w;
     match img with
     | None => mret {| is_success := false; data := [] |}
     | Some _ =>
         tables ← extract_tables w;
         let lab_tests := tables_loop tables in
         _ ← remove_files w;
         mret {| is_success := true; data := lab_tests |}
     end)
    {| is_success := false; data := [] |}.

(** ** Vocabulary of the statements *)

(** Every character of [s] satisfies [p]. *)
Fixpoint all_chars (p : ascii -> bool) (s : string) : bool :=
  match s with
  | EmptyString => true
  | String c s' => p c && all_chars p s'
  end.

(** [s] begins with a character satisfying [p]. *)
Definition head_is (p : ascii -> bool) (s : string) : bool :=
  match s with
  | String c _ => p c
  | EmptyString => false
  end.

(** A non-empty run of digits and points: what [[\d.]+] captures. *)
Definition number_text (s : string) : bool :=
  negb (String.eqb s EmptyString) && all_chars Re.digit_or_dot s.

(** The matcher's progress after consuming every character of [r]. *)
Fixpoint eat_all (r : string) (st : Re.progress) : Re.progress :=
  match r with
  | EmptyString => st
  | String c r' => eat_all r' (Re.eat c st)
  end.

(** Position in [mask] of its [k]-th marked entry, counting from 0. *)
Fixpoint kth_true (mask : list bool) (k : nat) : option nat :=
  match mask with
  | [] => None
  | true :: mask' =>
      match k with
      | 0 => Some 0
      | S k' => S <$> kth_true mask' k'
      end
  | false :: mask' => S <$> kth_true mask' k
  end.

(** The cells found at position [j], one per row that is long enough. *)
Definition cells_at (rws : list (list cell)) (j : nat) : list cell :=
  omap (fun row => row !! j) rws.

(** The normalizer as the specification words it. *)
Module Spec.

(** Step 1: a cell equal to the text "None" or to the empty text holds
    no value. *)
Definition no_value (c : cell) : cell :=
  match c with
  | CStr s => if String.eqb s "None" || String.eqb s EmptyString then CNaN else c
  | _ => c
  end.

Definition all_missing (cells : list cell) : bool := forallb isna cells.

(** Entries of [l] at the positions [keep] accepts, in order. *)
Definition project {A} (keep : nat -> bool) (l : list A) : list A :=
  snd <$> filter (fun jx => Is_true (keep (fst jx))) (imap pair l).

Definition clean (df : DataFrame) : DataFrame :=
  (* step 1 *)
  let cells := map (map no_value) (rows df) in
  (* step 2: drop the rows where every cell is missing *)
  let kept_rows := filter (fun row => ¬ Is_true (all_missing row)) cells in
  (* step 3: drop the columns where every cell of the kept rows is missing *)
  let keep j := negb (all_missing (cells_at kept_rows j)) in
  {| columns := project keep (columns df);
     rows := map (project keep) kept_rows |}.

(** Step 4: reject with fewer than 2 rows or fewer than 2 columns. *)
Definition normalize (df : DataFrame) : option DataFrame :=
  let out := clean df in
  if decide (length (rows out) < 2 ∨ length (columns out) < 2)
  then None else Some out.

End Spec.

(** The rows left by steps 1 and 2 of [clean], and the column mask of
    step 3. *)
Definition kept_rows (df : DataFrame) : list (list cell) :=
  rows (dropna_rows (replace EmptyString (replace "None" df))).

Definition kept_mask (df : DataFrame) : list bool :=
  map (column_has_value (kept_rows df)) (seq 0 (length (columns df))).

(** A frame in the form [clean] leaves it: rectangular, no placeholder
    text, a value in every row and in every column. *)
Record normal (df : DataFrame) : Prop := {
  normal_rect : rectangular df;
  normal_cells : Forall (Forall (fun c => c ≠ CStr "None" ∧ c ≠ CStr EmptyString)) (rows df);
  normal_rows : Forall (fun row => existsb notna row = true) (rows df);
  normal_columns : forall j, j < length (columns df) -> column_has_value (rows df) j = true
}.

(** The keys [col_map] may hold, and the column position the fallback of
    lines 173-181 gives each of them. *)
Definition role_keys : list string :=
  ["test_name"; "test_value"; "bio_reference_range"; "test_unit"].

Definition position_of_key (key : string) : option nat :=
  if String.eqb key "test_name" then Some 0
  else if String.eqb key "test_value" then Some 1
  else if String.eqb key "bio_reference_range" then Some 2
  else if String.eqb key "test_unit" then Some 3
  else None.

(** A table the loop skips: too small after cleaning, or fewer than two
    keys set by the classifier. *)
Definition rejected (df : DataFrame) : bool :=
  match normalize df with
  | None => true
  | Some out =>
      match column_mapping out with
      | None => true
      | Some _ => false
      end
  end.

(** What one row contributes to [lab_tests]. *)
Definition row_records (body : list cell -> outcome (option LabTest))
    (row : list cell) : list LabTest :=
  row_step body [] row.

(** Every collaborator call returns, the image decodes, and [tables] are
    the frames found. *)
Definition runs_through (w : Collaborators) (tables : list DataFrame) : Prop :=
  save_upload w = Returns ()
  ∧ imread w = Returns (Some ())
  ∧ extract_tables w = Returns tables
  ∧ remove_files w = Returns ().

(** The record the body of the [try] block returns for [row], if it
    returns one: nothing when the row is skipped by [continue] and nothing
    when the body raises. *)
Definition built (body : list cell -> outcome (option LabTest)) (row : list cell)
  : option LabTest :=
  match body row with
  | Returns (Some t) => Some t
  | Returns None => None
  | Raises => None
  end.

(** The mapping the rows of a cleaned frame are read with. *)
Definition final_mapping (df : DataFrame) : gmap string label :=
  positional_fallback (columns df) (classify df).

(** ** Sample inputs *)

(** A four-column table with an empty row and an empty column. *)
Definition sparse_table : DataFrame :=
  {| columns := [LInt 0; LInt 1; LInt 2; LInt 3];
     rows := [ [CStr "Hemoglobin"; CNone; CStr "12.5 g/dL"; CNone];
               [CNone; CStr "None"; CStr EmptyString; CNone];
               [CStr "WBC test"; CStr EmptyString; CStr "11200"; CStr EmptyString] ] |}.

(** Reference ranges in the first column, then two numeric columns. *)
Definition crossed_table : DataFrame :=
  {| columns := [LInt 0; LInt 1; LInt 2];
     rows := [ [CStr "13.0-17.0"; CStr "16.5"; CStr "1"];
               [CStr "4000-11000"; CStr "11200"; CStr "2"] ] |}.

(** The end-to-end table of the specification. *)
Definition report_table : DataFrame :=
  {| columns := [LStr "Test"; LStr "Result"; LStr "Bio. Ref. Range"; LStr "Unit"];
     rows := [ [CStr "Hemoglobin"; CStr "16.5"; CStr "13.0-17.0"; CStr "g/dL"];
               [CStr "WBC Count"; CStr "11200"; CStr "4000-11000"; CStr "/cumm"];
               [CStr "Glucose"; CStr EmptyString; CStr "70-110"; CStr "mg/dL"] ] |}.

(** One data row only. *)
Definition single_row_table : DataFrame :=
  {| columns := [LInt 0; LInt 1];
     rows := [ [CStr "Hemoglobin"; CStr "16.5"] ] |}.

(** A row body that fails on a row with no cells and otherwise does what
    the handler does. *)
Definition brittle_body (cols : list label) (col_map : gmap string label)
    (row : list cell) : outcome (option LabTest) :=
  match row with
  | [] => Raises
  | _ => process_row cols col_map row
  end.

(** The image decodes and the table extraction raises. *)
Definition extraction_fails : Collaborators :=
  {| save_upload := Returns ();
     imread := Returns (Some ());
     extract_tables := Raises;
     remove_files := Returns () |}.

(** Every call returns and no table is found. *)
Definition finds (tables : list DataFrame) : Collaborators :=
  {| save_upload := Returns ();
     imread := Returns (Some ());
     extract_tables := Returns tables;
     remove_files := Returns () |}.

(** ** Vocabulary of the further properties *)

(** [x] is a NaN. *)
Definition is_nan (x : Float.float) : bool :=
  match x with S754_nan => true | _ => false end.

(** Number of points in [s]. *)
Fixpoint count_points (s : string) : nat :=
  match s with
  | EmptyString => 0
  | String c s' => (if Char.lit "." c then 1 else 0) + count_points s'
  end.

(** [s] holds a decimal digit. *)
Fixpoint has_digit (s : string) : bool :=
  match s with
  | EmptyString => false
  | String c s' => Char.is_digit c || has_digit s'
  end.

(** A run of digits and points that reads as a number: at most one point
    and at least one digit. *)
Definition plain_number (s : string) : bool :=
  (count_points s <=? 1) && has_digit s.

(** The last character of [s] satisfies [p]. *)
Fixpoint tail_is (p : ascii -> bool) (s : string) : bool :=
  match s with
  | EmptyString => false
  | String c EmptyString => p c
  | String _ s' => tail_is p s'
  end.

(** Not a blank. *)
Definition is_ink (c : ascii) : bool := negb (Char.is_space c).

(** [[a-zA-Z/]] and [[\s-]], the two mixed classes of the patterns. *)
Definition unit_char : ascii -> bool := Char.either Char.is_alpha (Char.lit "/").

Definition gap_char : ascii -> bool := Char.either Char.is_space (Char.lit "-").

(** A decimal digit or a minus sign: the characters of [str(n)] for an
    integer [n]. *)
Definition signed_digit : ascii -> bool := Char.either Char.is_digit (Char.lit "-").

(** * Properties *)

(** ** The matcher on greedy runs *)

Section GreedyRuns.
Context {A : Type}.
Variable p : ascii -> bool.
Variable k : string -> Re.progress -> option A.

Lemma star_run (r rest : string) (st : Re.progress) (x : A) :
  all_chars p r = true ->
  head_is p rest = false ->
  k rest (eat_all r st) = Some x ->
  Re.star p k (r ++ rest) st = Some x.
Proof.
  revert st. induction r as [|c r IH]; intros st Hall Hhead Hk; simpl in *.
  - destruct rest as [|c rest]; simpl in *; [exact Hk|].
    rewrite Hhead. exact Hk.
  - apply andb_prop in Hall as [Hc Hall]. rewrite Hc.
    rewrite (IH (Re.eat c st) Hall Hhead Hk). reflexivity.
Qed.

Lemma plus_run (r rest : string) (st : Re.progress) (x : A) :
  r <> EmptyString ->
  all_chars p r = true ->
  head_is p rest = false ->
  k rest (eat_all r st) = Some x ->
  Re.plus p k (r ++ rest) st = Some x.
Proof.
  destruct r as [|c r]; [congruence|]. intros _ Hall Hhead Hk. simpl in *.
  apply andb_prop in Hall as [Hc Hall]. rewrite Hc.
  now apply star_run.
Qed.

Lemma plus_no_head (s : string) (st : Re.progress) :
  head_is p s = false -> Re.plus p k s st = None.
Proof. destruct s as [|c s]; simpl; [reflexivity|]. now intros ->. Qed.
End GreedyRuns.

Lemma eat_all_closed r st : Re.closed (eat_all r st) = Re.closed st.
Proof. revert st. induction r as [|c r IH]; intros st; simpl; [reflexivity|]. now rewrite IH. Qed.

Lemma eat_all_opened r st :
  Re.opened (eat_all r st) = (rev (list_ascii_of_string r) ++ Re.opened st)%list.
Proof.
  revert st. induction r as [|c r IH]; intros st; simpl; [reflexivity|].
  rewrite IH. simpl. now rewrite <- app_assoc.
Qed.

Lemma captured_text r st :
  Re.closed (Re.close_group (eat_all r (Re.open_group st))) = r :: Re.closed st.
Proof.
  unfold Re.close_group. simpl. rewrite eat_all_opened, eat_all_closed. simpl.
  rewrite app_nil_r, rev_involutive, string_of_list_ascii_of_string. reflexivity.
Qed.

Lemma space_not_number (c : ascii) :
  Char.is_space c = true -> Re.digit_or_dot c = false.
Proof.
  destruct c as [[] [] [] [] [] [] [] []]; vm_compute; congruence.
Qed.

Lemma number_not_space (c : ascii) :
  Re.digit_or_dot c = true -> Char.is_space c = false.
Proof.
  destruct c as [[] [] [] [] [] [] [] []]; vm_compute; congruence.
Qed.

Lemma number_text_inv s :
  number_text s = true -> s <> EmptyString /\ all_chars Re.digit_or_dot s = true.
Proof.
  unfold number_text. intros H. apply andb_prop in H as [Hne Hall]. split; [|exact Hall].
  intros ->. discriminate.
Qed.

Lemma number_text_head s rest :
  number_text s = true -> head_is Char.is_space (s ++ rest) = false.
Proof.
  intros H. apply number_text_inv in H as [Hne Hall].
  destruct s as [|c s]; [congruence|]. simpl in *.
  apply andb_prop in Hall as [Hc _]. now apply number_not_space.
Qed.

(** Unfoldings of [Re.run], one per token. *)

Lemma run_nil s st : Re.run [] s st = Some (rev (Re.closed st)).
Proof. reflexivity. Qed.
Lemma run_open k s st : Re.run (Re.Open :: k) s st = Re.run k s (Re.open_group st).
Proof. reflexivity. Qed.
Lemma run_close k s st : Re.run (Re.Close :: k) s st = Re.run k s (Re.close_group st).
Proof. reflexivity. Qed.
Lemma run_one p k s st : Re.run (Re.One p :: k) s st = Re.one p (Re.run k) s st.
Proof. reflexivity. Qed.
Lemma run_star p k s st : Re.run (Re.Star p :: k) s st = Re.star p (Re.run k) s st.
Proof. reflexivity. Qed.
Lemma run_plus p k s st : Re.run (Re.Plus p :: k) s st = Re.plus p (Re.run k) s st.
Proof. reflexivity. Qed.

(** The range pattern on text of the shape number, blanks, hyphen, blanks,
    number, followed by anything that does not continue the second number. *)
Lemma range_pattern_shape (d1 w1 w2 d2 rest : string) :
  number_text d1 = true ->
  all_chars Char.is_space w1 = true ->
  all_chars Char.is_space w2 = true ->
  number_text d2 = true ->
  head_is Re.digit_or_dot rest = false ->
  Re.rmatch range_pattern (d1 ++ w1 ++ "-" ++ w2 ++ d2 ++ rest) = Some [d1; d2].
Proof.
  intros Hd1 Hw1 Hw2 Hd2 Hrest.
  pose proof (number_text_head d2 rest Hd2) as Hhead2.
  apply number_text_inv in Hd1 as [Hne1 Hall1].
  apply number_text_inv in Hd2 as [Hne2 Hall2].
  unfold Re.rmatch, range_pattern.
  rewrite run_open, run_plus.
  apply plus_run; try assumption.
  { destruct w1 as [|c w1]; simpl in *; [reflexivity|].
    apply andb_prop in Hw1 as [Hc _]. now apply space_not_number. }
  rewrite run_close, run_star.
  apply star_run; try assumption; [reflexivity|].
  rewrite run_one. change ("-" ++ w2 ++ d2 ++ rest) with (String "-"%char (w2 ++ d2 ++ rest)).
  cbn [Re.one]. change (Char.lit "-"%char "-"%char) with true. cbv iota.
  rewrite run_star. apply star_run; try assumption.
  rewrite run_open, run_plus. apply plus_run; try assumption.
  rewrite run_close, run_nil, captured_text.
  unfold Re.eat at 1. cbn [Re.closed].
  rewrite eat_all_closed, eat_all_closed, captured_text. reflexivity.
Qed.

(** ** [parse_reference_range] *)

Lemma parse_no_match s :
  Re.rmatch range_pattern s = None -> parse_reference_range s = Returns (None, None).
Proof. unfold parse_reference_range. now intros ->. Qed.

Lemma parse_match s m :
  Re.rmatch range_pattern s = Some m ->
  parse_reference_range s =
    (low ← float (group m 1); high ← float (group m 2); mret (Some low, Some high)).
Proof. unfold parse_reference_range. now intros ->. Qed.

(** Text that does not begin with a digit or a point never matches. *)
Lemma parse_bad_head s :
  head_is Re.digit_or_dot s = false -> parse_reference_range s = Returns (None, None).
Proof.
  intros H. apply parse_no_match. unfold Re.rmatch, range_pattern.
  rewrite run_open, run_plus. now apply plus_no_head.
Qed.

(** C3: [parse_reference_range] matches number, hyphen, number at the start
    of the text and ignores what follows: on any text of the shape
    number / blanks / "-" / blanks / number / rest, where rest does not
    continue the second number, the result is the pair of floats read from
    the two numbers, whatever rest is; text that does not start with a
    digit or point is unparseable.  On the examples of the specification:
    "70 - 110" gives (70.0, 110.0), "4.5-11.0 x10^9/L" gives (4.5, 11.0),
    "10-20 mg/dL" parses, "Negative" and "<5" give (None, None). *)
Theorem parse_reference_range_prefix :
  (forall d1 w1 w2 d2 rest,
      number_text d1 = true ->
      all_chars Char.is_space w1 = true ->
      all_chars Char.is_space w2 = true ->
      number_text d2 = true ->
      head_is Re.digit_or_dot rest = false ->
      parse_reference_range (d1 ++ w1 ++ "-" ++ w2 ++ d2 ++ rest) =
        (low ← float d1; high ← float d2; mret (Some low, Some high)))
  /\ (forall s, head_is Re.digit_or_dot s = false ->
                parse_reference_range s = Returns (None, None))
  /\ parse_reference_range "70 - 110"
     = Returns (Some (Float.dyadic 70 0), Some (Float.dyadic 110 0))
  /\ parse_reference_range "4.5-11.0 x10^9/L"
     = Returns (Some (Float.dyadic 9 (-1)), Some (Float.dyadic 11 0))
  /\ parse_reference_range "10-20 mg/dL"
     = Returns (Some (Float.dyadic 10 0), Some (Float.dyadic 20 0))
  /\ parse_reference_range "Negative" = Returns (None, None)
  /\ parse_reference_range "<5" = Returns (None, None).
Proof.
  split; [|split; [exact parse_bad_head|]].
  - intros d1 w1 w2 d2 rest H1 H2 H3 H4 H5.
    now rewrite (parse_match _ _ (range_pattern_shape d1 w1 w2 d2 rest H1 H2 H3 H4 H5)).
  - repeat split; vm_compute; reflexivity.
Qed.

(** The general part of C3 at "4.5-11.0 x10^9/L": the trailing text plays
    no role. *)
Lemma parse_reference_range_prefix_witness :
  parse_reference_range ("4.5" ++ EmptyString ++ "-" ++ EmptyString ++ "11.0" ++ " x10^9/L") =
    (low ← float "4.5"; high ← float "11.0"; mret (Some low, Some high)).
Proof.
  apply (proj1 parse_reference_range_prefix "4.5" EmptyString EmptyString "11.0" " x10^9/L");
    reflexivity.
Defined.

(** C4, as stated, fails: on "1.2.3-4" the pattern matches, the first group
    is "1.2.3", and [float] raises inside [parse_reference_range]. *)
Lemma parse_reference_range_raises :
  Re.rmatch range_pattern "1.2.3-4" = Some ["1.2.3"; "4"]
  /\ parse_reference_range "1.2.3-4" = Raises
  /\ ~ (exists r, parse_reference_range "1.2.3-4" = Returns r).
Proof.
  split; [vm_compute; reflexivity|].
  assert (H : parse_reference_range "1.2.3-4" = Raises) by (vm_compute; reflexivity).
  split; [exact H|]. intros [r Hr]. rewrite H in Hr. discriminate.
Qed.

(** C4, amended: for every text, [parse_reference_range] returns
    (None, None) when the pattern does not match; when it matches and both
    captured groups are float literals it returns the two floats in the
    order read, with no ordering enforced ("110-70" gives (110.0, 70.0));
    when it matches and a captured group is not a float literal it raises,
    and [is_out_of_range] turns that into None for every value. *)
Theorem parse_reference_range_cases (s : string) :
  match Re.rmatch range_pattern s with
  | None => parse_reference_range s = Returns (None, None)
  | Some m =>
      match Float.of_string (group m 1), Float.of_string (group m 2) with
      | Some low, Some high => parse_reference_range s = Returns (Some low, Some high)
      | _, _ =>
          parse_reference_range s = Raises
          /\ forall value, is_out_of_range value s = None
      end
  end
  /\ parse_reference_range "110-70"
     = Returns (Some (Float.dyadic 110 0), Some (Float.dyadic 70 0)).
Proof.
  split; [|vm_compute; reflexivity].
  unfold is_out_of_range, parse_reference_range, float.
  destruct (Re.rmatch range_pattern s) as [m|]; [|reflexivity].
  destruct (Float.of_string (group m 1)) as [low|]; simpl.
  - destruct (Float.of_string (group m 2)) as [high|]; simpl; [reflexivity|].
    split; reflexivity.
  - destruct (Float.of_string (group m 2)); split; reflexivity.
Qed.

(** ** [is_out_of_range] *)

(** C2: [is_out_of_range] returns None when the range is unparseable
    (no match, or a failure inside the parser) or when [float(value)]
    fails; otherwise it returns the truth value of
    [value < low or value > high].  In particular
    [is_out_of_range("120", "70-110")] is True and
    [is_out_of_range("90", "70-110")] is False. *)
Theorem is_out_of_range_spec :
  (forall value ref_range,
      parse_reference_range ref_range = Returns (None, None) ->
      is_out_of_range value ref_range = None)
  /\ (forall value ref_range,
      parse_reference_range ref_range = Raises ->
      is_out_of_range value ref_range = None)
  /\ (forall value ref_range,
      Float.of_string value = None ->
      is_out_of_range value ref_range = None)
  /\ (forall value ref_range low high v,
      parse_reference_range ref_range = Returns (Some low, Some high) ->
      Float.of_string value = Some v ->
      is_out_of_range value ref_range = Some (Float.ltb v low || Float.ltb high v))
  /\ is_out_of_range "120" "70-110" = Some true
  /\ is_out_of_range "90" "70-110" = Some false.
Proof.
  unfold is_out_of_range, float.
  split; [|split; [|split; [|split]]].
  - intros value r ->. simpl. now destruct (Float.of_string value).
  - now intros value r ->.
  - intros value r ->. now destruct (parse_reference_range r) as [[? ?]|].
  - now intros value r low high v -> ->.
  - split; vm_compute; reflexivity.
Qed.

(** C2 at value "120" and range "70-110": both parse, and 120 > 110. *)
Lemma is_out_of_range_spec_witness :
  is_out_of_range "120" "70-110"
  = Some (Float.ltb (Float.dyadic 120 0) (Float.dyadic 70 0)
          || Float.ltb (Float.dyadic 110 0) (Float.dyadic 120 0)).
Proof.
  apply (proj1 (proj2 (proj2 (proj2 is_out_of_range_spec)))
           "120" "70-110" (Float.dyadic 70 0) (Float.dyadic 110 0) (Float.dyadic 120 0));
    vm_compute; reflexivity.
Defined.

(** ** The normalizer *)

(** *** [select] *)

Lemma select_length_le {A} (mask : list bool) (l : list A) :
  length (select mask l) ≤ length l.
Proof.
  revert l. induction mask as [|b mask IH]; intros [|x l]; simpl; try lia.
  specialize (IH l). destruct b; simpl; lia.
Qed.

Lemma select_subseteq {A} (mask : list bool) (l : list A) x :
  x ∈ select mask l → x ∈ l.
Proof.
  revert l. induction mask as [|b mask IH]; intros [|y l]; simpl; try by rewrite elem_of_nil.
  destruct b.
  - rewrite !elem_of_cons. intros [->|H]; [by left|right; by apply IH].
  - intros H. rewrite elem_of_cons. right. by apply IH.
Qed.

Lemma select_lookup {A} (mask : list bool) (l : list A) k :
  length mask ≤ length l →
  select mask l !! k = kth_true mask k ≫= (λ j, l !! j).
Proof.
  revert l k. induction mask as [|b mask IH]; intros [|x l] k Hlen; simpl in *; try done; try lia.
  destruct b.
  - destruct k as [|k]; simpl; [done|].
    rewrite IH; [|lia]. by destruct (kth_true mask k).
  - rewrite IH; [|lia]. by destruct (kth_true mask k).
Qed.

Lemma kth_true_marked mask k j : kth_true mask k = Some j → mask !! j = Some true.
Proof.
  revert k j. induction mask as [|b mask IH]; intros k j; simpl; [done|].
  destruct b.
  - destruct k as [|k]; [by intros [= <-]|].
    destruct (kth_true mask k) as [j'|] eqn:E; simpl; [|done].
    intros [= <-]. simpl. eauto.
  - destruct (kth_true mask k) as [j'|] eqn:E; simpl; [|done].
    intros [= <-]. simpl. eauto.
Qed.

Lemma select_elem {A} (mask : list bool) (l : list A) j x :
  mask !! j = Some true → l !! j = Some x → x ∈ select mask l.
Proof.
  revert l j. induction mask as [|b mask IH]; intros [|y l] [|j]; simpl; try done.
  - intros [= ->] [= ->]. left.
  - intros Hm Hl. destruct b; [right|]; eauto.
Qed.

Lemma select_all {A} (mask : list bool) (l : list A) :
  Forall (λ b, b = true) mask → length l ≤ length mask → select mask l = l.
Proof.
  revert l. induction mask as [|b mask IH]; intros [|x l] Hall Hlen; simpl in *; try done; try lia.
  inversion Hall as [|? ? -> Hall']; subst. f_equal. apply IH; [done|lia].
Qed.

Lemma select_length_eq {A B} (mask : list bool) (l : list A) (l' : list B) :
  length l = length l' → length (select mask l) = length (select mask l').
Proof.
  revert l l'. induction mask as [|b mask IH]; intros [|x l] [|y l']; simpl; try done.
  intros [= H]. destruct b; simpl; eauto.
Qed.

(** *** The cleaning steps *)

Lemma replace_twice c :
  replace_cell EmptyString (replace_cell "None" c) = Spec.no_value c.
Proof.
  destruct c as [| |s]; simpl; try done.
  destruct (String.eqb s "None") eqn:E1; simpl; [done|].
  by destruct (String.eqb s EmptyString).
Qed.

Lemma no_value_fixed c :
  Spec.no_value c ≠ CStr "None" ∧ Spec.no_value c ≠ CStr EmptyString.
Proof.
  destruct c as [| |s]; simpl; try done.
  destruct (String.eqb s "None") eqn:E1; simpl; [done|].
  destruct (String.eqb s EmptyString) eqn:E2; simpl; [done|].
  apply String.eqb_neq in E1, E2. split; congruence.
Qed.

Lemma no_value_id c :
  c ≠ CStr "None" → c ≠ CStr EmptyString → Spec.no_value c = c.
Proof.
  destruct c as [| |s]; simpl; try done. intros H1 H2.
  destruct (String.eqb s "None") eqn:E1; [apply String.eqb_eq in E1; congruence|].
  destruct (String.eqb s EmptyString) eqn:E2; [apply String.eqb_eq in E2; congruence|]. done.
Qed.

Lemma has_value_not_all_missing row :
  Is_true (existsb notna row) ↔ ¬ Is_true (Spec.all_missing row).
Proof.
  unfold Spec.all_missing, notna. induction row as [|c row IH]; simpl; [tauto|].
  destruct (isna c); simpl; tauto.
Qed.

Lemma column_has_value_cells rws j :
  column_has_value rws j = negb (Spec.all_missing (cells_at rws j)).
Proof.
  unfold column_has_value, cells_at, Spec.all_missing.
  induction rws as [|row rws IH]; simpl; [done|].
  destruct (row !! j) as [c|]; simpl; [|done].
  rewrite IH. unfold notna. by destruct (isna c).
Qed.

Lemma project_select_from {A} (keep : nat → bool) (l : list A) n f :
  (∀ i, f i = keep (n + i)) →
  snd <$> filter (λ jx, Is_true (keep (fst jx))) (imap (λ i x, (n + i, x)) l)
  = select (map f (seq 0 (length l))) l.
Proof.
  revert n f. induction l as [|x l IH]; intros n f Hf; simpl; [done|].
  rewrite filter_cons. simpl.
  assert (Hrec : snd <$> filter (λ jx, Is_true (keep jx.1)) (imap ((λ i x, (n + i, x)) ∘ S) l)
                 = select (map f (seq 1 (length l))) l).
  { rewrite <- seq_shift, map_map.
    rewrite <- (IH (S n) (λ i, f (S i))); [|intros i; rewrite Hf; f_equal; lia].
    f_equal. f_equal. apply imap_ext. intros i y _. simpl. f_equal. lia. }
  rewrite (Hf 0).
  destruct (decide (Is_true (keep (n + 0)))) as [Hk|Hk].
  - apply Is_true_true in Hk. rewrite Hk, fmap_cons. simpl. f_equal. exact Hrec.
  - apply Is_true_false in Hk. rewrite Hk. exact Hrec.
Qed.

Lemma project_select {A} (keep : nat → bool) (l : list A) :
  Spec.project keep l = select (map keep (seq 0 (length l))) l.
Proof. unfold Spec.project. by apply (project_select_from keep l 0 keep). Qed.

Lemma clean_unfold df :
  clean df = {| columns := select (kept_mask df) (columns df);
                rows := map (select (kept_mask df)) (kept_rows df) |}.
Proof. reflexivity. Qed.

Lemma kept_rows_unfold df :
  kept_rows df
  = filter (λ row, Is_true (existsb notna row)) (map (map Spec.no_value) (rows df)).
Proof.
  unfold kept_rows, dropna_rows, replace. simpl. f_equal.
  rewrite map_map. apply map_ext. intros row.
  rewrite map_map. apply map_ext. apply replace_twice.
Qed.

Lemma kept_rows_spec df :
  kept_rows df
  = filter (λ row, ¬ Is_true (Spec.all_missing row)) (map (map Spec.no_value) (rows df)).
Proof.
  rewrite kept_rows_unfold. apply list_filter_iff. intros row.
  apply has_value_not_all_missing.
Qed.

Lemma kept_rows_length df : length (kept_rows df) ≤ length (rows df).
Proof.
  rewrite kept_rows_unfold.
  etrans; [apply length_filter|]. by rewrite length_map.
Qed.

Lemma kept_rows_rect df row :
  rectangular df → row ∈ kept_rows df → length row = length (columns df).
Proof.
  intros Hrect. rewrite kept_rows_unfold, list_elem_of_filter.
  intros [_ Hin]. apply list_elem_of_fmap in Hin as (row0 & -> & Hin0).
  rewrite length_map. unfold rectangular in Hrect.
  rewrite Forall_forall in Hrect. by apply Hrect.
Qed.

Lemma kept_rows_value df row :
  row ∈ kept_rows df → existsb notna row = true.
Proof.
  rewrite kept_rows_unfold, list_elem_of_filter. intros [H _]. by apply Is_true_true.
Qed.

Lemma kept_rows_cells df row c :
  row ∈ kept_rows df → c ∈ row → c ≠ CStr "None" ∧ c ≠ CStr EmptyString.
Proof.
  rewrite kept_rows_unfold, list_elem_of_filter. intros [_ Hin] Hc.
  apply list_elem_of_fmap in Hin as (row0 & -> & _).
  apply list_elem_of_fmap in Hc as (c0 & -> & _). apply no_value_fixed.
Qed.

Lemma kept_mask_length df : length (kept_mask df) = length (columns df).
Proof. unfold kept_mask. by rewrite length_map, length_seq. Qed.

Lemma kept_mask_lookup df j :
  j < length (columns df) →
  kept_mask df !! j = Some (column_has_value (kept_rows df) j).
Proof.
  intros Hj. unfold kept_mask. rewrite list_lookup_fmap.
  rewrite lookup_seq_lt; done.
Qed.

Lemma column_has_value_true rws j :
  column_has_value rws j = true ↔ ∃ row c, row ∈ rws ∧ row !! j = Some c ∧ notna c = true.
Proof.
  unfold column_has_value. rewrite existsb_exists. split.
  - intros (row & Hin & H). destruct (row !! j) as [c|] eqn:E; [|done].
    exists row, c. by rewrite list_elem_of_In.
  - intros (row & c & Hin & E & H). exists row. rewrite <- list_elem_of_In, E. done.
Qed.

Lemma existsb_notna_lookup row :
  existsb notna row = true ↔ ∃ j c, row !! j = Some c ∧ notna c = true.
Proof.
  rewrite existsb_exists. split.
  - intros (c & Hin & H). apply list_elem_of_In, list_elem_of_lookup in Hin as [j Hj]. eauto.
  - intros (j & c & Hj & H). exists c. split; [|done].
    apply list_elem_of_In, list_elem_of_lookup. eauto.
Qed.

(** [clean] leaves a frame in normal form. *)
Lemma clean_normal df : rectangular df → normal (clean df).
Proof.
  intros Hrect. rewrite clean_unfold. split; simpl.
  - (* rectangular *)
    unfold rectangular. simpl. rewrite Forall_forall. intros row' Hin.
    apply list_elem_of_fmap in Hin as (row & -> & Hin).
    apply select_length_eq. by apply kept_rows_rect.
  - (* no placeholder text *)
    rewrite Forall_forall. intros row' Hin.
    apply list_elem_of_fmap in Hin as (row & -> & Hin).
    rewrite Forall_forall. intros c Hc. apply select_subseteq in Hc.
    by apply (kept_rows_cells df row).
  - (* a value in every row *)
    rewrite Forall_forall. intros row' Hin.
    apply list_elem_of_fmap in Hin as (row & -> & Hin).
    pose proof (kept_rows_value df row Hin) as Hv.
    apply existsb_notna_lookup in Hv as (j & c & Hj & Hc).
    assert (Hlt : j < length (columns df)).
    { rewrite <- (kept_rows_rect df row Hrect Hin). by apply lookup_lt_Some in Hj. }
    apply existsb_exists. exists c. split; [|done].
    apply list_elem_of_In. apply (select_elem _ _ j); [|done].
    rewrite (kept_mask_lookup df j Hlt). f_equal.
    apply column_has_value_true. eauto.
  - (* a value in every column *)
    intros k Hk.
    destruct (lookup_lt_is_Some_2 _ _ Hk) as [lbl Hlbl].
    rewrite select_lookup in Hlbl by (by rewrite kept_mask_length).
    destruct (kth_true (kept_mask df) k) as [j|] eqn:Ekth; [|done]. simpl in Hlbl.
    pose proof (kth_true_marked _ _ _ Ekth) as Hmark.
    assert (Hlt : j < length (columns df)) by (by apply lookup_lt_Some in Hlbl).
    rewrite (kept_mask_lookup df j Hlt) in Hmark. injection Hmark as Hmark.
    apply column_has_value_true in Hmark as (row & c & Hin & Hj & Hc).
    apply column_has_value_true. exists (select (kept_mask df) row), c.
    split; [apply list_elem_of_fmap; eauto|]. split; [|done].
    rewrite select_lookup, Ekth; [done|].
    rewrite kept_mask_length. by rewrite (kept_rows_rect df row Hrect Hin).
Qed.

(** A frame in normal form is left unchanged. *)
Lemma normal_clean_id df : normal df → clean df = df.
Proof.
  intros [Hrect Hcells Hrows Hcols].
  assert (Hkept : kept_rows df = rows df).
  { rewrite kept_rows_unfold.
    assert (Hmap : map (map Spec.no_value) (rows df) = rows df).
    { etrans; [|apply map_id]. apply map_ext_Forall.
      eapply Forall_impl; [exact Hcells|]. intros row Hrow. simpl.
      etrans; [|apply map_id]. apply map_ext_Forall.
      eapply Forall_impl; [exact Hrow|]. intros c [H1 H2]. by apply no_value_id. }
    rewrite Hmap. clear Hmap Hcells Hcols Hrect.
    induction (rows df) as [|row rws IH]; [done|].
    inversion Hrows as [|? ? Hrow Hrest]; subst.
    rewrite filter_cons_True by (by apply Is_true_true). f_equal. by apply IH. }
  assert (Hmask : Forall (λ b, b = true) (kept_mask df)).
  { unfold kept_mask. rewrite Hkept, Forall_forall. intros b Hb.
    apply list_elem_of_fmap in Hb as (j & -> & Hj).
    apply Hcols. apply elem_of_seq in Hj. lia. }
  rewrite clean_unfold, Hkept. destruct df as [cols rws]. simpl in *. f_equal.
  - apply select_all; [done|]. by rewrite kept_mask_length.
  - etrans; [|apply map_id]. apply map_ext_Forall.
    eapply Forall_impl; [exact Hrect|]. intros row Hlen. simpl in *.
    apply select_all; [done|]. rewrite kept_mask_length. simpl. lia.
Qed.

(** The pandas steps compute the normalizer of the specification. *)
Lemma clean_refines df : rectangular df → clean df = Spec.clean df.
Proof.
  intros Hrect. rewrite clean_unfold. unfold Spec.clean.
  rewrite <- kept_rows_spec.
  assert (Hmask : ∀ n, map (column_has_value (kept_rows df)) (seq 0 n)
                     = map (λ j, negb (Spec.all_missing (cells_at (kept_rows df) j))) (seq 0 n)).
  { intros n. apply map_ext. intros j. apply column_has_value_cells. }
  f_equal.
  - rewrite project_select. unfold kept_mask. by rewrite Hmask.
  - apply map_ext_Forall. rewrite Forall_forall. intros row Hin.
    rewrite project_select, (kept_rows_rect df row Hrect Hin).
    unfold kept_mask. by rewrite Hmask.
Qed.

Lemma clean_rows_le df : length (rows (clean df)) ≤ length (rows df).
Proof. rewrite clean_unfold. simpl. rewrite length_map. apply kept_rows_length. Qed.

Lemma clean_columns_le df : length (columns (clean df)) ≤ length (columns df).
Proof. rewrite clean_unfold. simpl. apply select_length_le. Qed.

(** C5: on every (rectangular) raw table the cleaning steps of the handler
    are the four steps of the specification: cells equal to "None" or to
    the empty text become no-value, rows that are entirely no-value are dropped, then
    columns that are entirely no-value over the surviving rows are dropped,
    and the table is rejected exactly when fewer than 2 rows or fewer than
    2 columns remain.  The output has no more rows and no more columns than
    the input, and every surviving row and every surviving column holds a
    value. *)
Theorem normalize_correct (df : DataFrame) :
  rectangular df →
  clean df = Spec.clean df
  ∧ normalize df = Spec.normalize df
  ∧ (normalize df = None ↔
       length (rows (clean df)) < 2 ∨ length (columns (clean df)) < 2)
  ∧ (∀ out, normalize df = Some out → out = clean df)
  ∧ length (rows (clean df)) ≤ length (rows df)
  ∧ length (columns (clean df)) ≤ length (columns df)
  ∧ Forall (λ row, existsb notna row = true) (rows (clean df))
  ∧ (∀ j, j < length (columns (clean df)) →
          column_has_value (rows (clean df)) j = true).
Proof.
  intros Hrect.
  pose proof (clean_refines df Hrect) as Href.
  pose proof (clean_normal df Hrect) as [_ _ Hrows Hcols].
  assert (Hsmall : too_small (clean df) = true ↔
            length (rows (clean df)) < 2 ∨ length (columns (clean df)) < 2).
  { unfold too_small, shape. simpl.
    rewrite orb_true_iff, !Nat.ltb_lt. done. }
  split; [exact Href|]. split; [|split; [|split]].
  - unfold normalize, Spec.normalize. rewrite <- Href.
    destruct (too_small (clean df)) eqn:E.
    + rewrite decide_True; [done|]. by apply Hsmall.
    + rewrite decide_False; [done|]. intros H. apply Hsmall in H. congruence.
  - unfold normalize. rewrite <- Hsmall.
    destruct (too_small (clean df)); split; congruence.
  - unfold normalize. intros out. destruct (too_small (clean df)); congruence.
  - split; [apply clean_rows_le|]. split; [apply clean_columns_le|]. done.
Qed.

(** C5 on [sparse_table]: the empty row and the two empty columns go, two
    rows and two columns remain, and the table is accepted. *)
Lemma normalize_correct_witness :
  rectangular sparse_table
  ∧ normalize sparse_table
    = Some {| columns := [LInt 0; LInt 2];
              rows := [ [CStr "Hemoglobin"; CStr "12.5 g/dL"];
                        [CStr "WBC test"; CStr "11200"] ] |}
  ∧ normalize sparse_table = Spec.normalize sparse_table.
Proof.
  assert (H : rectangular sparse_table) by (repeat constructor).
  split; [exact H|]. split; [vm_compute; reflexivity|].
  exact (proj1 (proj2 (normalize_correct sparse_table H))).
Defined.

(** C10: normalizing is idempotent.  When a (rectangular) raw table is
    accepted, applying the cleaning steps to the normalized table gives the
    same table back, and it is accepted again. *)
Theorem normalize_idempotent (df out : DataFrame) :
  rectangular df →
  normalize df = Some out →
  clean out = out ∧ normalize out = Some out.
Proof.
  intros Hrect. unfold normalize.
  destruct (too_small (clean df)) eqn:E; [done|]. intros [= <-].
  rewrite (normal_clean_id (clean df) (clean_normal df Hrect)).
  by rewrite E.
Qed.

(** C10 on [sparse_table]. *)
Lemma normalize_idempotent_witness :
  ∃ out, normalize sparse_table = Some out ∧ clean out = out ∧ normalize out = Some out.
Proof.
  eexists. split; [vm_compute; reflexivity|].
  apply (normalize_idempotent sparse_table); [repeat constructor|vm_compute; reflexivity].
Defined.

(** ** The column classifier *)

Lemma claimed_key_role col_lower values key :
  claimed_key col_lower values = Some key → key ∈ role_keys.
Proof.
  unfold claimed_key, role_keys.
  repeat match goal with |- context [if ?b then _ else _] => destruct b end;
    intros [= <-]; set_solver.
Qed.

Lemma key_of_column_role df col key :
  key_of_column df col = Some key → key ∈ role_keys.
Proof.
  unfold key_of_column. destruct (sample_values_of df col); [done|].
  apply claimed_key_role.
Qed.

Section Classify.
Variable df : DataFrame.

Lemma classify_fold_last cols (m : gmap string label) key :
  foldl (classify_step df) m cols !! key
  = match last (filter (λ c, key_of_column df c = Some key) cols) with
    | Some c => Some c
    | None => m !! key
    end.
Proof.
  revert m. induction cols as [|c cols IH]; intros m; simpl; [done|].
  rewrite IH, filter_cons. unfold classify_step.
  destruct (decide (key_of_column df c = Some key)) as [Hk|Hk].
  - rewrite Hk. rewrite last_cons.
    destruct (last (filter _ cols)); [done|]. by rewrite lookup_insert_eq.
  - destruct (last (filter _ cols)); [done|].
    destruct (key_of_column df c) as [k'|]; [|done].
    rewrite lookup_insert_ne; [done|congruence].
Qed.

Lemma classify_last key :
  classify df !! key
  = last (filter (λ c, key_of_column df c = Some key) (columns df)).
Proof.
  unfold classify. rewrite classify_fold_last, lookup_empty.
  by destruct (last _).
Qed.

Lemma classify_sound key c :
  classify df !! key = Some c → c ∈ columns df ∧ key_of_column df c = Some key.
Proof.
  rewrite classify_last. intros H. apply last_Some_elem_of in H.
  apply list_elem_of_filter in H. tauto.
Qed.
End Classify.

Lemma fill_lookup key i cols (m : gmap string label) k :
  fill key i cols m !! k
  = match m !! k with
    | Some c => Some c
    | None => if decide (key = k) then cols !! i else None
    end.
Proof.
  unfold fill. destruct (decide (key = k)) as [->|Hne].
  - destruct (m !! k) as [c|] eqn:E; [by rewrite E|].
    destruct (cols !! i) as [c|]; [by rewrite lookup_insert_eq|]. by rewrite E.
  - destruct (m !! key), (cols !! i); try rewrite lookup_insert_ne by done;
      by destruct (m !! k).
Qed.

Lemma positional_fallback_lookup cols (m : gmap string label) k :
  positional_fallback cols m !! k
  = match m !! k with
    | Some c => Some c
    | None => position_of_key k ≫= (λ i, cols !! i)
    end.
Proof.
  unfold positional_fallback. rewrite !fill_lookup.
  destruct (m !! k) as [c|]; [done|]. unfold position_of_key.
  destruct (decide ("test_name" = k)) as [<-|H1]; [simpl; by destruct (cols !! 0)|].
  destruct (decide ("test_value" = k)) as [<-|H2]; [simpl; by destruct (cols !! 1)|].
  destruct (decide ("bio_reference_range" = k)) as [<-|H3]; [simpl; by destruct (cols !! 2)|].
  destruct (decide ("test_unit" = k)) as [<-|H4]; [simpl; by destruct (cols !! 3)|].
  apply not_eq_sym in H1, H2, H3, H4.
  apply String.eqb_neq in H1, H2, H3, H4. by rewrite H1, H2, H3, H4.
Qed.

Lemma classify_injective df k1 k2 c :
  classify df !! k1 = Some c → classify df !! k2 = Some c → k1 = k2.
Proof.
  intros H1 H2. apply classify_sound in H1 as [_ H1], H2 as [_ H2]. congruence.
Qed.

(** C1, as stated, fails on [crossed_table], which is already in normal
    form.  Columns 1 and 2 both take the test-value branch and the later
    one replaces the earlier one; and the reference-range column 0 is then
    also given to test_name by the positional fallback, so two keys hold
    column 0. *)
Lemma column_mapping_shares_column :
  normalize crossed_table = Some crossed_table
  ∧ key_of_column crossed_table (LInt 1) = Some "test_value"
  ∧ key_of_column crossed_table (LInt 2) = Some "test_value"
  ∧ classify crossed_table !! "test_value" = Some (LInt 2)
  ∧ ∃ m, column_mapping crossed_table = Some m
         ∧ m !! "test_name" = Some (LInt 0)
         ∧ m !! "bio_reference_range" = Some (LInt 0).
Proof.
  split; [vm_compute; reflexivity|].
  split; [vm_compute; reflexivity|].
  split; [vm_compute; reflexivity|].
  split; [vm_compute; reflexivity|].
  eexists. split; [reflexivity|].
  split; vm_compute; reflexivity.
Qed.

(** C1, amended: the loop over the columns leaves each key on the last
    column (left to right) whose branch sets it, so a later column taking
    the same branch replaces the earlier one; after that loop no column is
    held by two keys, only the four role keys occur, and every mapped
    column is a column of the table.  The positional fallback keeps every
    key already set and gives an unset key its fixed position (test_name 0,
    test_value 1, bio_reference_range 2, test_unit 3) when the table has
    that column, whether or not another key already holds that column. *)
Theorem column_mapping_shape (df : DataFrame) :
  (∀ key, classify df !! key
          = last (filter (λ c, key_of_column df c = Some key) (columns df)))
  ∧ (∀ k1 k2 c, classify df !! k1 = Some c → classify df !! k2 = Some c → k1 = k2)
  ∧ (∀ key c, classify df !! key = Some c → key ∈ role_keys ∧ c ∈ columns df)
  ∧ (∀ key, positional_fallback (columns df) (classify df) !! key
            = match classify df !! key with
              | Some c => Some c
              | None => position_of_key key ≫= (λ i, columns df !! i)
              end).
Proof.
  split; [apply classify_last|].
  split; [apply classify_injective|].
  split; [|intros key; apply positional_fallback_lookup].
  intros key c H. apply classify_sound in H as [Hin Hkey].
  split; [by eapply key_of_column_role|done].
Qed.

(** C1 (amended) on [crossed_table]: column 2 is the last column taking
    the test-value branch, and it is a column of the table. *)
Lemma column_mapping_shape_witness :
  classify crossed_table !! "test_value" = Some (LInt 2)
  ∧ ("test_value" ∈ role_keys ∧ LInt 2 ∈ columns crossed_table)
  ∧ "test_value" = "test_value".
Proof.
  assert (H : classify crossed_table !! "test_value" = Some (LInt 2))
    by (vm_compute; reflexivity).
  split; [exact H|]. split.
  - exact (proj1 (proj2 (proj2 (column_mapping_shape crossed_table)))
             "test_value" (LInt 2) H).
  - exact (proj1 (proj2 (column_mapping_shape crossed_table))
             "test_value" "test_value" (LInt 2) H H).
Defined.

(** ** Row extraction *)

Lemma blank_false s :
  blank s = false ↔ s ≠ EmptyString ∧ Str.lower s ∉ ["none"; "nan"; EmptyString].
Proof.
  unfold blank, Str.among. simpl. rewrite !orb_false_iff, !String.eqb_neq.
  rewrite !not_elem_of_cons. split.
  - intros (H0 & H1 & H2 & H3 & _). repeat split; try done. apply not_elem_of_nil.
  - intros (H0 & H1 & H2 & H3 & _). done.
Qed.

Lemma process_row_total cols col_map row : process_row cols col_map row ≠ Raises.
Proof.
  unfold process_row.
  destruct (blank _); [done|]. destruct (blank _); [done|].
  by destruct (split_value_unit _ _).
Qed.

(** C6: a record is built for a row only when the resolved test_name and
    test_value are both non-empty and neither lower-cases to "none", "nan"
    or the empty text; whenever they pass that test a record is built, and its flag is
    False when the out-of-range check is indeterminate (range or value
    unparseable): the row is not dropped for that.  The row body never
    raises. *)
Theorem process_row_builds (cols : list label) (col_map : gmap string label)
    (row : list cell) :
  let name := resolve cols col_map row "test_name" in
  let value := resolve cols col_map row "test_value" in
  (∀ t, process_row cols col_map row = Returns (Some t) →
        (name ≠ EmptyString ∧ Str.lower name ∉ ["none"; "nan"; EmptyString])
        ∧ (value ≠ EmptyString ∧ Str.lower value ∉ ["none"; "nan"; EmptyString])
        ∧ test_name t = name)
  ∧ (blank name = false → blank value = false →
       ∃ t, process_row cols col_map row = Returns (Some t)
            ∧ lab_test_out_of_range t
              = flag (is_out_of_range (test_value t) (bio_reference_range t))
            ∧ (is_out_of_range (test_value t) (bio_reference_range t) = None →
               lab_test_out_of_range t = false))
  ∧ process_row cols col_map row ≠ Raises.
Proof.
  intros name value. split; [|split; [|apply process_row_total]].
  - intros t. unfold process_row. fold name value.
    destruct (blank name) eqn:En; [done|].
    destruct (blank value) eqn:Ev; [done|].
    destruct (split_value_unit _ _) as [v u]. intros [= <-]. simpl.
    apply blank_false in En, Ev. done.
  - intros En Ev. unfold process_row. fold name value. rewrite En, Ev.
    destruct (split_value_unit _ _) as [v u]. eexists. split; [done|]. simpl.
    split; [done|]. by intros ->.
Qed.

(** C6 on the first row of [report_table]: the record is built. *)
Lemma process_row_builds_witness :
  let cols := columns report_table in
  let col_map := positional_fallback cols (classify report_table) in
  let row := [CStr "Hemoglobin"; CStr "16.5"; CStr "13.0-17.0"; CStr "g/dL"] in
  ∃ t, process_row cols col_map row = Returns (Some t)
       ∧ (resolve cols col_map row "test_name" ≠ EmptyString
          ∧ Str.lower (resolve cols col_map row "test_name") ∉ ["none"; "nan"; EmptyString]).
Proof.
  intros cols col_map row.
  destruct (proj1 (proj2 (process_row_builds cols col_map row))) as (t & Ht & _).
  - vm_compute; reflexivity.
  - vm_compute; reflexivity.
  - exists t. split; [exact Ht|].
    exact (proj1 (proj1 (process_row_builds cols col_map row) t Ht)).
Defined.



(** ** The loops *)

Local Open Scope list_scope.

Section RowLoopFacts.
Variable body : list cell → outcome (option LabTest).

Lemma row_step_acc acc row :
  row_step body acc row = acc ++ row_records body row.
Proof.
  unfold row_records, row_step.
  destruct (body row) as [[t|]|]; simpl; by rewrite ?app_nil_r.
Qed.

Lemma rows_loop_acc rws acc :
  rows_loop body rws acc = acc ++ flat_map (row_records body) rws.
Proof.
  unfold rows_loop. revert acc.
  induction rws as [|row rws IH]; intros acc; simpl; [by rewrite app_nil_r|].
  by rewrite IH, row_step_acc, <- app_assoc.
Qed.

Lemma row_records_raises row : body row = Raises → row_records body row = [].
Proof. unfold row_records, row_step. by intros ->. Qed.
End RowLoopFacts.

Lemma process_table_acc acc df :
  process_table acc df = acc ++ process_table [] df.
Proof.
  unfold process_table.
  destruct (too_small (clean df)); [by rewrite app_nil_r|].
  destruct (size (classify (clean df)) <? 2); [by rewrite app_nil_r|].
  by rewrite rows_loop_acc, (rows_loop_acc _ _ []).
Qed.

Lemma tables_fold_acc tables acc :
  foldl process_table acc tables = acc ++ flat_map (process_table []) tables.
Proof.
  revert acc. induction tables as [|df tables IH]; intros acc; simpl;
    [by rewrite app_nil_r|].
  by rewrite IH, process_table_acc, <- app_assoc.
Qed.

Lemma tables_loop_flat tables :
  tables_loop tables = flat_map (process_table []) tables.
Proof. unfold tables_loop. by rewrite tables_fold_acc. Qed.

Lemma tables_loop_app before after :
  tables_loop (before ++ after) = tables_loop before ++ tables_loop after.
Proof. by rewrite !tables_loop_flat, flat_map_app. Qed.

Lemma rejected_no_records df : rejected df = true → process_table [] df = [].
Proof.
  unfold rejected, normalize, column_mapping, process_table.
  destruct (too_small (clean df)); [done|].
  by destruct (size (classify (clean df)) <? 2).
Qed.

Lemma all_rejected tables :
  Forall (λ df, rejected df = true) tables → tables_loop tables = [].
Proof.
  rewrite tables_loop_flat. induction 1 as [|df tables Hdf _ IH]; simpl; [done|].
  by rewrite (rejected_no_records df Hdf), IH.
Qed.

(** The end-to-end table of the specification: the first two rows give
    records, in range and out of range, and the third row, whose value
    cell is empty, is skipped. *)
Example report_table_records :
  tables_loop [report_table]
  = [ {| test_name := "Hemoglobin"; test_value := "16.5";
         bio_reference_range := "13.0-17.0"; test_unit := "g/dL";
         lab_test_out_of_range := false |};
      {| test_name := "WBC Count"; test_value := "11200";
         bio_reference_range := "4000-11000"; test_unit := "/cumm";
         lab_test_out_of_range := true |} ].
Proof. vm_compute. reflexivity. Qed.

Lemma rows_loop_built body rws acc :
  rows_loop body rws acc = acc ++ omap (built body) rws.
Proof.
  unfold rows_loop. revert acc.
  induction rws as [|row rws IH]; intros acc; simpl; [by rewrite app_nil_r|].
  rewrite IH. unfold row_step, built.
  destruct (body row) as [[t|]|]; simpl; [|done..].
  by rewrite <- app_assoc.
Qed.

Lemma process_table_accepted df :
  rejected df = false →
  process_table [] df
  = omap (built (process_row (columns (clean df)) (final_mapping (clean df))))
         (rows (clean df)).
Proof.
  unfold rejected, normalize, column_mapping, process_table, final_mapping.
  destruct (too_small (clean df)); [done|].
  destruct (size (classify (clean df)) <? 2); [done|]. intros _.
  by rewrite rows_loop_built.
Qed.

(** C8: failures stay inside their boundary.  A row whose processing
    raises adds nothing, and the rows before and after it are processed as
    if it were not there; a row for which the body returns a record puts
    that record in the output, after the records of the rows before it and
    before those of the rows after it, whatever happens in those rows; the
    row loop returns what it was given followed by the records the body
    returns, in row order.  A table rejected as too small or for lack of
    column mapping adds nothing, and the tables before and after it are
    processed as if it were not there; a table that is not rejected adds
    the records of its rows between those of the tables before it and
    after it; so every record built from a row of a table that is not
    rejected is in the output, whatever the other tables are. *)
Theorem failures_are_local :
  (∀ body before row after acc,
      body row = Raises →
      rows_loop body (before ++ row :: after) acc
      = rows_loop body (before ++ after) acc)
  ∧ (∀ body before row after acc t,
      body row = Returns (Some t) →
      rows_loop body (before ++ row :: after) acc
      = rows_loop body before acc ++ t :: rows_loop body after [])
  ∧ (∀ body rws acc,
      rows_loop body rws acc = acc ++ omap (built body) rws)
  ∧ (∀ before df after,
      rejected df = true →
      tables_loop (before ++ df :: after) = tables_loop (before ++ after))
  ∧ (∀ before df after,
      rejected df = false →
      tables_loop (before ++ df :: after)
      = tables_loop before
        ++ omap (built (process_row (columns (clean df)) (final_mapping (clean df))))
                (rows (clean df))
        ++ tables_loop after)
  ∧ (∀ tables df row t,
      df ∈ tables →
      rejected df = false →
      row ∈ rows (clean df) →
      process_row (columns (clean df)) (final_mapping (clean df)) row
      = Returns (Some t) →
      t ∈ tables_loop tables).
Proof.
  split; [|split; [|split; [apply rows_loop_built|split; [|split]]]].
  - intros body before row after acc Hraise.
    rewrite !rows_loop_built, !omap_app. simpl. unfold built at 2. by rewrite Hraise.
  - intros body before row after acc t Hbuilt.
    rewrite !rows_loop_built, omap_app. simpl. unfold built at 2. rewrite Hbuilt.
    by rewrite <- app_assoc.
  - intros before df after Hrej.
    rewrite !tables_loop_flat, !flat_map_app. simpl.
    by rewrite (rejected_no_records df Hrej).
  - intros before df after Hacc.
    rewrite !tables_loop_flat, flat_map_app. simpl.
    by rewrite (process_table_accepted df Hacc).
  - intros tables df row t Hdf Hacc Hrow Ht.
    rewrite tables_loop_flat, list_elem_of_In, in_flat_map.
    exists df. rewrite <- !list_elem_of_In. split; [done|].
    rewrite (process_table_accepted df Hacc). apply list_elem_of_omap.
    exists row. split; [done|]. unfold built. by rewrite Ht.
Qed.

(** C8 on a failing row between two good rows, a good row between two
    failing rows, the one-row table between two copies of [report_table],
    and the first record of [report_table] after a rejected table. *)
Lemma failures_are_local_witness :
  let cols := columns report_table in
  let col_map := positional_fallback cols (classify report_table) in
  let good := [CStr "Hemoglobin"; CStr "16.5"; CStr "13.0-17.0"; CStr "g/dL"] in
  let t := {| test_name := "Hemoglobin"; test_value := "16.5";
              bio_reference_range := "13.0-17.0"; test_unit := "g/dL";
              lab_test_out_of_range := false |} in
  rows_loop (brittle_body cols col_map) ([good] ++ [] :: [good]) []
  = rows_loop (brittle_body cols col_map) ([good] ++ [good]) []
  ∧ rows_loop (brittle_body cols col_map) ([[]] ++ good :: [[]]) []
    = rows_loop (brittle_body cols col_map) [[]] []
      ++ t :: rows_loop (brittle_body cols col_map) [[]] []
  ∧ tables_loop ([report_table] ++ single_row_table :: [report_table])
    = tables_loop ([report_table] ++ [report_table])
  ∧ t ∈ tables_loop [single_row_table; report_table].
Proof.
  intros cols col_map good t. split; [|split; [|split]].
  - apply (proj1 failures_are_local (brittle_body cols col_map) [good] [] [good] []).
    reflexivity.
  - apply (proj1 (proj2 failures_are_local)
             (brittle_body cols col_map) [[]] good [[]] [] t).
    vm_compute; reflexivity.
  - apply (proj1 (proj2 (proj2 (proj2 failures_are_local)))
             [report_table] single_row_table [report_table]).
    vm_compute; reflexivity.
  - apply (proj2 (proj2 (proj2 (proj2 (proj2 failures_are_local))))
             [single_row_table; report_table] report_table good t).
    + right. left.
    + vm_compute; reflexivity.
    + replace (rows (clean report_table))
        with [good; [CStr "WBC Count"; CStr "11200"; CStr "4000-11000"; CStr "/cumm"];
              [CStr "Glucose"; CNaN; CStr "70-110"; CStr "mg/dL"]]
        by (vm_compute; reflexivity).
      left.
    + vm_compute; reflexivity.
Defined.

(** ** The handler *)

Lemma get_lab_tests_runs_through w tables :
  runs_through w tables →
  get_lab_tests w = {| is_success := true; data := tables_loop tables |}.
Proof.
  intros (H1 & H2 & H3 & H4). unfold get_lab_tests. by rewrite H1, H2, H3, H4.
Qed.

Lemma get_lab_tests_success w :
  is_success (get_lab_tests w) = true → ∃ tables, runs_through w tables.
Proof.
  unfold get_lab_tests, runs_through.
  destruct (save_upload w) as [[]|]; [|done].
  destruct (imread w) as [[[]|]|]; [|done|done].
  destruct (extract_tables w) as [tables|]; [|done].
  destruct (remove_files w) as [[]|]; [|done].
  intros _. by exists tables.
Qed.

Lemma get_lab_tests_failure_data w :
  is_success (get_lab_tests w) = false → data (get_lab_tests w) = [].
Proof.
  unfold get_lab_tests.
  destruct (save_upload w) as [[]|]; [|done].
  destruct (imread w) as [[[]|]|]; [|done|done].
  destruct (extract_tables w) as [tables|]; [|done].
  by destruct (remove_files w) as [[]|].
Qed.

(** C7, as stated, fails: in [extraction_fails] the image decodes, the
    table extraction raises, and the handler answers is_success = False. *)
Lemma success_false_after_decoding :
  imread extraction_fails = Returns (Some ())
  ∧ get_lab_tests extraction_fails = {| is_success := false; data := [] |}.
Proof. split; reflexivity. Qed.

(** C7, amended: the handler answers is_success = True exactly when the
    image decodes and every collaborator call (saving the upload, decoding,
    preprocessing and table extraction, removing the temporary files)
    returns; the answer then carries the records of all tables.  In every
    other case, an image that does not decode or an exception raised by any
    of these calls, it answers is_success = False with no records.  Zero
    tables found, or every table rejected, is a success with an empty
    list. *)
Theorem get_lab_tests_outcome (w : Collaborators) :
  (is_success (get_lab_tests w) = true ↔ ∃ tables, runs_through w tables)
  ∧ (∀ tables, runs_through w tables →
       get_lab_tests w = {| is_success := true; data := tables_loop tables |})
  ∧ (is_success (get_lab_tests w) = false → data (get_lab_tests w) = [])
  ∧ (save_upload w = Returns () → imread w = Returns None →
       get_lab_tests w = {| is_success := false; data := [] |})
  ∧ (runs_through w [] →
       get_lab_tests w = {| is_success := true; data := [] |})
  ∧ (∀ tables, runs_through w tables →
       Forall (λ df, rejected df = true) tables →
       get_lab_tests w = {| is_success := true; data := [] |}).
Proof.
  split; [split|].
  - apply get_lab_tests_success.
  - intros [tables H]. by rewrite (get_lab_tests_runs_through w tables H).
  - split; [apply get_lab_tests_runs_through|].
    split; [apply get_lab_tests_failure_data|].
    split; [|split].
    + intros H1 H2. unfold get_lab_tests. by rewrite H1, H2.
    + intros H. by rewrite (get_lab_tests_runs_through w [] H).
    + intros tables H Hrej.
      by rewrite (get_lab_tests_runs_through w tables H), (all_rejected tables Hrej).
Qed.

(** C7 (amended) when one table is found and it is rejected. *)
Lemma get_lab_tests_outcome_witness :
  get_lab_tests (finds [single_row_table]) = {| is_success := true; data := [] |}.
Proof.
  apply (proj2 (proj2 (proj2 (proj2 (proj2
           (get_lab_tests_outcome (finds [single_row_table]))))))
           [single_row_table]).
  - repeat split.
  - repeat constructor.
Defined.

(** * Further properties *)

(** ** What a match of the range pattern says about the text *)

Section GreedyInversion.
Context {A : Type}.
Variable p : ascii → bool.
Variable k : string → Re.progress → option A.

(** A successful [star] consumed a run of [p] and handed the rest to [k];
    it stopped either where [p] stops or where going on fails. *)
Lemma star_inv s st x :
  Re.star p k s st = Some x →
  ∃ r rest, s = r +:+ rest ∧ all_chars p r = true
            ∧ k rest (eat_all r st) = Some x
            ∧ (head_is p rest = true →
               ∃ c rest', rest = String c rest'
                          ∧ Re.star p k rest' (Re.eat c (eat_all r st)) = None).
Proof.
  revert st. induction s as [|c s IH]; intros st; simpl.
  - intros H. exists EmptyString, EmptyString. by repeat split.
  - destruct (p c) eqn:Hc.
    + destruct (Re.star p k s (Re.eat c st)) as [y|] eqn:Hrec; simpl.
      * intros [= <-]. destruct (IH _ Hrec) as (r & rest & -> & Hall & Hk & Hmax).
        exists (String c r), rest. simpl. rewrite Hc. by repeat split.
      * intros H. exists EmptyString, (String c s). simpl. repeat split; try done.
        intros _. by exists c, s.
    + intros H. exists EmptyString, (String c s). simpl. repeat split; try done.
      rewrite Hc. done.
Qed.

Lemma plus_inv s st x :
  Re.plus p k s st = Some x →
  ∃ r rest, s = r +:+ rest ∧ r ≠ EmptyString ∧ all_chars p r = true
            ∧ k rest (eat_all r st) = Some x
            ∧ (head_is p rest = true →
               ∃ c rest', rest = String c rest'
                          ∧ Re.star p k rest' (Re.eat c (eat_all r st)) = None).
Proof.
  destruct s as [|c s]; simpl; [done|].
  destruct (p c) eqn:Hc; [|done]. intros H.
  destruct (star_inv _ _ _ H) as (r & rest & -> & Hall & Hk & Hmax).
  exists (String c r), rest. simpl. rewrite Hc. by repeat split.
Qed.

(** When [k] cannot fail, neither can [star]. *)
Lemma star_total s st :
  (∀ s' st', is_Some (k s' st')) → is_Some (Re.star p k s st).
Proof.
  intros Hk. revert st. induction s as [|c s IH]; intros st; simpl; [done|].
  destruct (p c); [|done]. destruct (IH (Re.eat c st)) as [y ->]. by eexists.
Qed.
End GreedyInversion.

Lemma one_inv {A} p (k : string → Re.progress → option A) s st x :
  Re.one p k s st = Some x →
  ∃ c rest, s = String c rest ∧ p c = true ∧ k rest (Re.eat c st) = Some x.
Proof.
  destruct s as [|c s]; simpl; [done|]. destruct (p c) eqn:Hc; [|done]. eauto.
Qed.

Lemma number_text_intro s :
  s ≠ EmptyString → all_chars Re.digit_or_dot s = true → number_text s = true.
Proof.
  intros Hne Hall. unfold number_text. rewrite Hall, andb_true_r.
  apply negb_true_iff, String.eqb_neq. done.
Qed.

Lemma hyphen_lit c : Char.lit "-" c = true → c = "-"%char.
Proof. unfold Char.lit. intros H. by apply Ascii.eqb_eq in H. Qed.

(** The texts the range pattern matches, and what it captures. *)
Lemma range_pattern_match_iff (s : string) (m : list string) :
  Re.rmatch range_pattern s = Some m ↔
  ∃ d1 w1 w2 d2 rest,
    s = d1 +:+ w1 +:+ "-" +:+ w2 +:+ d2 +:+ rest
    ∧ m = [d1; d2]
    ∧ number_text d1 = true
    ∧ all_chars Char.is_space w1 = true
    ∧ all_chars Char.is_space w2 = true
    ∧ number_text d2 = true
    ∧ head_is Re.digit_or_dot rest = false.
Proof.
  split.
  - unfold Re.rmatch, range_pattern. rewrite run_open, run_plus. intros H.
    apply plus_inv in H as (d1 & s1 & -> & Hne1 & Hall1 & H & _).
    rewrite run_close, run_star in H.
    apply star_inv in H as (w1 & s2 & -> & Hw1 & H & _).
    rewrite run_one in H.
    apply one_inv in H as (c & s3 & -> & Hc & H). apply hyphen_lit in Hc as ->.
    rewrite run_star in H.
    apply star_inv in H as (w2 & s4 & -> & Hw2 & H & _).
    rewrite run_open, run_plus in H.
    apply plus_inv in H as (d2 & rest & -> & Hne2 & Hall2 & H & Hmax).
    exists d1, w1, w2, d2, rest.
    split; [done|]. split.
    { rewrite run_close, run_nil, captured_text in H.
      unfold Re.eat at 1 in H. cbn [Re.closed] in H.
      rewrite eat_all_closed, eat_all_closed, captured_text in H.
      by injection H as <-. }
    split; [by apply number_text_intro|]. split; [done|]. split; [done|].
    split; [by apply number_text_intro|].
    destruct (head_is Re.digit_or_dot rest) eqn:Hhead; [|done].
    destruct (Hmax eq_refl) as (c & rest' & -> & Hnone).
    destruct (star_total Re.digit_or_dot (Re.run [Re.Close]) rest'
                (Re.eat c (eat_all d2 (Re.open_group
                   (eat_all w2 (Re.eat "-" (eat_all w1 (Re.close_group
                     (eat_all d1 (Re.open_group Re.start)))))))))) as [y Hy].
    { intros s' st'. rewrite run_close, run_nil. by eexists. }
    congruence.
  - intros (d1 & w1 & w2 & d2 & rest & -> & -> & H1 & H2 & H3 & H4 & H5).
    by apply range_pattern_shape.
Qed.

(** ** The order on floats *)

Lemma compare_cont_eq p q : Pos.compare_cont Eq p q = (p ?= q)%positive.
Proof. reflexivity. Qed.

Ltac order_cases :=
  repeat match goal with
  | |- context [PosDef.Pos.compare_cont Eq ?a ?b] =>
      change (PosDef.Pos.compare_cont Eq a b) with (a ?= b)%positive
  | H : context [PosDef.Pos.compare_cont Eq ?a ?b] |- _ =>
      change (PosDef.Pos.compare_cont Eq a b) with (a ?= b)%positive in H
  | |- context [(?a ?= ?b)%Z] =>
      destruct (Z.compare_spec a b); subst; simpl; try done; try lia
  | |- context [(?a ?= ?b)%positive] =>
      destruct (Pos.compare_spec a b); subst; simpl; try done; try lia
  | H : context [(?a ?= ?b)%Z] |- _ =>
      destruct (Z.compare_spec a b); subst; simpl in H; try done; try lia
  | H : context [(?a ?= ?b)%positive] |- _ =>
      destruct (Pos.compare_spec a b); subst; simpl in H; try done; try lia
  end.

Lemma ltb_irrefl x : Float.ltb x x = false.
Proof.
  unfold Float.ltb, SFltb, SFcompare.
  destruct x as [[]|[]| |[] m e]; simpl; try done;
    rewrite Z.compare_refl; order_cases.
Qed.

Lemma ltb_nan_l x : Float.ltb S754_nan x = false.
Proof. by destruct x. Qed.

Lemma ltb_nan_r x : Float.ltb x S754_nan = false.
Proof. by destruct x as [[]|[]| |[] ? ?]. Qed.

(** Below a number that is itself below [x]: transitivity through the
    failure of [x < lo]. *)
Lemma ltb_reversed x lo hi :
  is_nan x = false →
  Float.ltb hi lo = true →
  Float.ltb x lo || Float.ltb hi x = true.
Proof.
  unfold Float.ltb, SFltb, SFcompare.
  destruct x as [sx|sx| |sx mx ex]; [| |done|];
  destruct lo as [sl|sl| |sl ml el]; destruct hi as [sh|sh| |sh mh eh];
    intros _ H; simpl in *; try done;
    repeat match goal with s : bool |- _ => destruct s end; simpl in *; try done;
    order_cases.
Qed.

(** ** More on [parse_reference_range] and [is_out_of_range] *)

(** X1: [parse_reference_range] returns a pair of floats exactly for the
    texts that begin with a run of digits and points, optional blanks, a
    hyphen, optional blanks and a second run of digits and points taken as
    far as it goes, both runs being float literals; the floats are those
    of the two runs.  Anything else (a leading sign, a leading blank,
    "<5", a missing second number) gives no pair. *)
Theorem parse_reference_range_pair_iff (s : string) (low high : Float.float) :
  parse_reference_range s = Returns (Some low, Some high) ↔
  ∃ d1 w1 w2 d2 rest,
    s = d1 +:+ w1 +:+ "-" +:+ w2 +:+ d2 +:+ rest
    ∧ number_text d1 = true
    ∧ all_chars Char.is_space w1 = true
    ∧ all_chars Char.is_space w2 = true
    ∧ number_text d2 = true
    ∧ head_is Re.digit_or_dot rest = false
    ∧ Float.of_string d1 = Some low
    ∧ Float.of_string d2 = Some high.
Proof.
  split.
  - unfold parse_reference_range.
    destruct (Re.rmatch range_pattern s) as [m|] eqn:Hm; [|done].
    apply range_pattern_match_iff in Hm
      as (d1 & w1 & w2 & d2 & rest & -> & -> & H1 & H2 & H3 & H4 & H5).
    unfold group, float. simpl.
    destruct (Float.of_string d1) as [lo|] eqn:E1; [|done]. simpl.
    destruct (Float.of_string d2) as [hi|] eqn:E2; [|done]. simpl.
    intros [= <- <-]. exists d1, w1, w2, d2, rest. by repeat split.
  - intros (d1 & w1 & w2 & d2 & rest & -> & H1 & H2 & H3 & H4 & H5 & E1 & E2).
    rewrite (parse_match _ _ (range_pattern_shape d1 w1 w2 d2 rest H1 H2 H3 H4 H5)).
    unfold group, float. simpl. rewrite E1. simpl. by rewrite E2.
Qed.

(** X2: a reversed range flags everything.  When the parsed low bound is
    above the parsed high bound, every value that converts to a number is
    out of range; a value that converts to NaN never is. *)
Theorem reversed_range_flags_all (value ref_range : string) (low high v : Float.float) :
  parse_reference_range ref_range = Returns (Some low, Some high) →
  Float.of_string value = Some v →
  Float.ltb high low = true →
  is_out_of_range value ref_range = Some (negb (is_nan v)).
Proof.
  intros Hr Hv Hrev. unfold is_out_of_range, float. rewrite Hr, Hv. simpl. f_equal.
  destruct (is_nan v) eqn:Hnan.
  - destruct v; try done. by rewrite ltb_nan_l, ltb_nan_r.
  - by apply ltb_reversed.
Qed.

(** X2 on the value "90" and the range "110-70". *)
Lemma reversed_range_flags_all_witness :
  is_out_of_range "90" "110-70" = Some true.
Proof.
  apply (reversed_range_flags_all "90" "110-70"
           (Float.dyadic 110 0) (Float.dyadic 70 0) (Float.dyadic 90 0));
    vm_compute; reflexivity.
Defined.

(** X3: the bounds are inclusive.  With a range that is not reversed, a
    value that converts to the low bound or to the high bound is in
    range. *)
Theorem bounds_are_inclusive (value ref_range : string) (low high v : Float.float) :
  parse_reference_range ref_range = Returns (Some low, Some high) →
  Float.ltb high low = false →
  Float.of_string value = Some v →
  v = low ∨ v = high →
  is_out_of_range value ref_range = Some false.
Proof.
  intros Hr Hord Hv Hb. unfold is_out_of_range, float. rewrite Hr, Hv. simpl. f_equal.
  destruct Hb as [-> | ->].
  - by rewrite ltb_irrefl, Hord.
  - by rewrite ltb_irrefl, orb_false_r.
Qed.

(** X3 on the value "110.0" and the range "70-110". *)
Lemma bounds_are_inclusive_witness :
  is_out_of_range "110.0" "70-110" = Some false.
Proof.
  apply (bounds_are_inclusive "110.0" "70-110"
           (Float.dyadic 70 0) (Float.dyadic 110 0) (Float.dyadic 110 0));
    [vm_compute; reflexivity | vm_compute; reflexivity | vm_compute; reflexivity | by right].
Defined.

Lemma append_empty_r s : s +:+ EmptyString = s.
Proof.
  induction s as [|c s IH]; [done|].
  change (String c (s +:+ EmptyString) = String c s). by rewrite IH.
Qed.

(** X4: the blanks around the hyphen and the text after the second number
    (a unit, a comment) play no role in the check: the result is the one
    for the two numbers joined by a bare hyphen. *)
Theorem is_out_of_range_ignores_layout (value d1 w1 w2 d2 rest : string) :
  number_text d1 = true →
  all_chars Char.is_space w1 = true →
  all_chars Char.is_space w2 = true →
  number_text d2 = true →
  head_is Re.digit_or_dot rest = false →
  is_out_of_range value (d1 +:+ w1 +:+ "-" +:+ w2 +:+ d2 +:+ rest)
  = is_out_of_range value (d1 +:+ "-" +:+ d2).
Proof.
  intros H1 H2 H3 H4 H5. unfold is_out_of_range.
  rewrite (parse_match _ _ (range_pattern_shape d1 w1 w2 d2 rest H1 H2 H3 H4 H5)).
  assert (Hbare : Re.rmatch range_pattern (d1 +:+ "-" +:+ d2) = Some [d1; d2]).
  { replace (d1 +:+ "-" +:+ d2)
      with (d1 +:+ EmptyString +:+ "-" +:+ EmptyString +:+ d2 +:+ EmptyString)
      by (rewrite (append_empty_r d2); reflexivity).
    by apply range_pattern_shape. }
  by rewrite (parse_match _ _ Hbare).
Qed.

(** X4 on "4.5 - 11.0 x10^9/L" against "4.5-11.0". *)
Lemma is_out_of_range_ignores_layout_witness :
  is_out_of_range "12" ("4.5" +:+ " " +:+ "-" +:+ " " +:+ "11.0" +:+ " x10^9/L")
  = is_out_of_range "12" ("4.5" +:+ "-" +:+ "11.0").
Proof.
  apply (is_out_of_range_ignores_layout "12" "4.5" " " " " "11.0" " x10^9/L");
    reflexivity.
Defined.

(** ** [float] on runs of digits and points *)

Lemma number_char_cases c :
  Re.digit_or_dot c = true →
  (Char.is_digit c = true ∧ Char.lit "." c = false
   ∨ Char.is_digit c = false ∧ c = "."%char)
  ∧ Char.lit "_" c = false ∧ Float.is_blank c = false
  ∧ Char.lower c = c
  ∧ c ≠ "-"%char ∧ c ≠ "+"%char ∧ c ≠ "i"%char ∧ c ≠ "n"%char
  ∧ Char.lit "e" c = false ∧ Char.lit "E" c = false.
Proof.
  destruct c as [[] [] [] [] [] [] [] []]; vm_compute; intros H;
    try discriminate H; repeat split; try congruence; auto.
Qed.

Lemma span_digits_spec s :
  ∃ ip s1, Float.span_digits s = (ip, s1) ∧ s = ip +:+ s1
           ∧ all_chars Char.is_digit ip = true
           ∧ head_is Char.is_digit s1 = false.
Proof.
  induction s as [|c s (ip & s1 & E & -> & Hall & Hhead)]; simpl.
  - by exists EmptyString, EmptyString.
  - destruct (Char.is_digit c) eqn:Hc.
    + rewrite E. exists (String c ip), s1. simpl. by rewrite Hc.
    + exists EmptyString, (String c (ip +:+ s1)). simpl. by rewrite Hc.
Qed.

Lemma all_chars_app p a b :
  all_chars p (a +:+ b) = all_chars p a && all_chars p b.
Proof.
  induction a as [|c a IH]; [done|].
  change (all_chars p (String c (a +:+ b)) = all_chars p (String c a) && all_chars p b).
  simpl. by rewrite IH, andb_assoc.
Qed.

Lemma count_points_app a b :
  count_points (a +:+ b) = count_points a + count_points b.
Proof.
  induction a as [|c a IH]; [done|].
  change (count_points (String c (a +:+ b)) = count_points (String c a) + count_points b).
  simpl. rewrite IH. lia.
Qed.

Lemma has_digit_app a b : has_digit (a +:+ b) = has_digit a || has_digit b.
Proof.
  induction a as [|c a IH]; [done|].
  change (has_digit (String c (a +:+ b)) = has_digit (String c a) || has_digit b).
  simpl. by rewrite IH, orb_assoc.
Qed.

Lemma digits_no_points s :
  all_chars Char.is_digit s = true →
  count_points s = 0 ∧ has_digit s = negb (String.eqb s EmptyString).
Proof.
  induction s as [|c s IH]; simpl; [done|].
  intros H. apply andb_prop in H as [Hc Hs]. destruct (IH Hs) as [-> _].
  rewrite Hc. split; [|done].
  destruct c as [[] [] [] [] [] [] [] []]; vm_compute in Hc; try discriminate Hc; reflexivity.
Qed.

Lemma drop_underscores_number prev s :
  Char.lit "_" prev = false →
  all_chars Re.digit_or_dot s = true →
  Float.drop_underscores prev s = Some s.
Proof.
  revert prev. induction s as [|c s IH]; intros prev Hprev;
    cbn [Float.drop_underscores all_chars].
  - by rewrite Hprev.
  - intros H. apply andb_prop in H as [Hc Hs].
    destruct (number_char_cases c Hc) as (_ & Hu & _).
    rewrite Hu, Hprev. cbn [andb]. by rewrite (IH c Hu Hs).
Qed.

Lemma float_lstrip_number s :
  head_is Float.is_blank s = false → Float.lstrip s = s.
Proof. destruct s as [|c s]; simpl; [done|]. by intros ->. Qed.

Lemma float_rstrip_number s :
  all_chars Re.digit_or_dot s = true → Float.rstrip s = s.
Proof.
  induction s as [|c s IH]; simpl; [done|].
  intros H. apply andb_prop in H as [Hc Hs]. rewrite (IH Hs).
  destruct (number_char_cases c Hc) as (_ & _ & Hb & _).
  destruct s; [by rewrite Hb|done].
Qed.

Lemma special_number neg s :
  s ≠ EmptyString → all_chars Re.digit_or_dot s = true → Float.special neg s = None.
Proof.
  destruct s as [|c s]; [done|]. intros _ H. simpl in H.
  apply andb_prop in H as [Hc _].
  destruct (number_char_cases c Hc) as (_ & _ & _ & Hl & _ & _ & Hi & Hn & _).
  unfold Float.special. simpl. rewrite Hl.
  assert (Ei : Ascii.eqb c "i" = false) by (by apply Ascii.eqb_neq).
  assert (En : Ascii.eqb c "n" = false) by (by apply Ascii.eqb_neq).
  by rewrite Ei, En.
Qed.

(** A run of digits and points is a float literal exactly when it has at
    most one point and at least one digit. *)
Lemma decimal_number neg s :
  all_chars Re.digit_or_dot s = true →
  is_Some (Float.decimal neg s) ↔ plain_number s = true.
Proof.
  intros Hall. unfold Float.decimal, plain_number.
  destruct (span_digits_spec s) as (ip & s1 & E & -> & Hip & Hhead1). rewrite E.
  rewrite all_chars_app in Hall. apply andb_prop in Hall as [_ Hs1].
  rewrite count_points_app, has_digit_app.
  destruct (digits_no_points ip Hip) as [-> Hdig]. rewrite Hdig. simpl.
  destruct s1 as [|c s1'].
  - (* no point *)
    rewrite append_empty_r. simpl.
    destruct ip as [|c ip]; simpl; [|split; [done|by eexists]].
    split; [by intros [? ?]|done].
  - simpl in Hs1, Hhead1. apply andb_prop in Hs1 as [Hc Hs1'].
    destruct (number_char_cases c Hc) as ([[Hd _]|[_ ->]] & _); [congruence|].
    destruct (span_digits_spec s1') as (fp & s2 & E2 & -> & Hfp & Hhead2). rewrite E2.
    rewrite all_chars_app in Hs1'. apply andb_prop in Hs1' as [_ Hs2].
    simpl. rewrite count_points_app, has_digit_app.
    destruct (digits_no_points fp Hfp) as [-> Hdigf]. rewrite Hdigf. simpl.
    destruct s2 as [|c2 s2'].
    + (* one point *)
      simpl. rewrite orb_false_r.
      destruct (ip +:+ fp) as [|c0 m] eqn:Em.
      * destruct ip; [|done]. destruct fp; [|done]. simpl. split; [by intros [? ?]|done].
      * simpl. split; [intros _|by eexists].
        destruct ip; [|done]. destruct fp; done.
    + (* a second point *)
      simpl in Hs2, Hhead2. apply andb_prop in Hs2 as [Hc2 _].
      destruct (number_char_cases c2 Hc2)
        as ([[Hd2 _]|[_ ->]] & _ & _ & _ & _ & _ & _ & _ & He & HE); [congruence|].
      simpl. split; [|done].
      destruct (ip +:+ fp); by intros [? ?].
Qed.

Lemma of_string_number s :
  number_text s = true →
  is_Some (Float.of_string s) ↔ plain_number s = true.
Proof.
  intros H. apply number_text_inv in H as [Hne Hall].
  unfold Float.of_string.
  rewrite (drop_underscores_number "000"%char s eq_refl Hall).
  assert (Hhead : head_is Float.is_blank s = false ∧ Float.take_sign s = (false, s)).
  { destruct s as [|c s]; [done|]. simpl in Hall. apply andb_prop in Hall as [Hc _].
    destruct (number_char_cases c Hc) as (_ & _ & Hb & _ & Hm & Hp & _).
    split; [done|]. unfold Float.take_sign.
    destruct c as [[] [] [] [] [] [] [] []]; try done; congruence. }
  destruct Hhead as [Hblank Hsign].
  rewrite (float_lstrip_number s Hblank), (float_rstrip_number s Hall), Hsign.
  rewrite (special_number false s Hne Hall). simpl.
  by apply decimal_number.
Qed.

(** X5: [parse_reference_range] raises exactly on the texts where the
    pattern matches and one of the two captured runs of digits and points
    is not a number: it has two or more points, or no digit at all (as in
    "1.2.3-4", "5-." or "..-7"). *)
Theorem parse_reference_range_raises_iff (s : string) :
  parse_reference_range s = Raises ↔
  ∃ d1 w1 w2 d2 rest,
    s = d1 +:+ w1 +:+ "-" +:+ w2 +:+ d2 +:+ rest
    ∧ number_text d1 = true
    ∧ all_chars Char.is_space w1 = true
    ∧ all_chars Char.is_space w2 = true
    ∧ number_text d2 = true
    ∧ head_is Re.digit_or_dot rest = false
    ∧ (plain_number d1 = false ∨ plain_number d2 = false).
Proof.
  assert (Hnone : ∀ d, number_text d = true →
            Float.of_string d = None ↔ plain_number d = false).
  { intros d Hd. pose proof (of_string_number d Hd) as H.
    destruct (Float.of_string d), (plain_number d); split; try done.
    - intros _. destruct H as [H _]. by specialize (H (mk_is_Some _ _ eq_refl)).
    - intros _. destruct H as [_ H]. destruct (H eq_refl) as [? ?]. done. }
  split.
  - unfold parse_reference_range.
    destruct (Re.rmatch range_pattern s) as [m|] eqn:Hm; [|done].
    apply range_pattern_match_iff in Hm
      as (d1 & w1 & w2 & d2 & rest & -> & -> & H1 & H2 & H3 & H4 & H5).
    unfold group, float. simpl. intros Hraise.
    exists d1, w1, w2, d2, rest. repeat split; try done.
    destruct (Float.of_string d1) eqn:E1; [|left; by apply Hnone].
    destruct (Float.of_string d2) eqn:E2; [done|right; by apply Hnone].
  - intros (d1 & w1 & w2 & d2 & rest & -> & H1 & H2 & H3 & H4 & H5 & Hbad).
    rewrite (parse_match _ _ (range_pattern_shape d1 w1 w2 d2 rest H1 H2 H3 H4 H5)).
    unfold group, float. simpl.
    destruct Hbad as [Hbad|Hbad]; apply Hnone in Hbad; try done; rewrite Hbad.
    + done.
    + by destruct (Float.of_string d1).
Qed.

(** ** [strip], [split] and [join] *)

Lemma lstrip_head s : head_is Char.is_space (Str.lstrip s) = false.
Proof.
  induction s as [|c s IH]; simpl; [done|].
  destruct (Char.is_space c) eqn:Hc; [done|]. simpl. done.
Qed.

Lemma lstrip_id s : head_is Char.is_space s = false → Str.lstrip s = s.
Proof. destruct s as [|c s]; simpl; [done|]. by intros ->. Qed.

Lemma rstrip_cons c s :
  Str.rstrip (String c s)
  = match Str.rstrip s with
    | EmptyString => if Char.is_space c then EmptyString else String c EmptyString
    | t => String c t
    end.
Proof. reflexivity. Qed.

Lemma rstrip_tail s : tail_is Char.is_space (Str.rstrip s) = false.
Proof.
  induction s as [|c s IH]; [done|]. rewrite rstrip_cons.
  destruct (Str.rstrip s) as [|c' t] eqn:E.
  - destruct (Char.is_space c) eqn:Hc; simpl; done.
  - simpl in *. done.
Qed.

Lemma rstrip_id s : tail_is Char.is_space s = false → Str.rstrip s = s.
Proof.
  induction s as [|c s IH]; [done|]. rewrite rstrip_cons. simpl.
  destruct s as [|c' s'].
  - simpl. by intros ->.
  - intros H. by rewrite (IH H).
Qed.

Lemma rstrip_head s :
  head_is Char.is_space s = false → head_is Char.is_space (Str.rstrip s) = false.
Proof.
  destruct s as [|c s]; [done|]. rewrite rstrip_cons. simpl. intros Hc.
  destruct (Str.rstrip s); [by rewrite Hc|done].
Qed.

Lemma strip_head s : head_is Char.is_space (Str.strip s) = false.
Proof. unfold Str.strip. apply rstrip_head, lstrip_head. Qed.

Lemma strip_tail s : tail_is Char.is_space (Str.strip s) = false.
Proof. unfold Str.strip. apply rstrip_tail. Qed.

Lemma strip_id s :
  head_is Char.is_space s = false → tail_is Char.is_space s = false →
  Str.strip s = s.
Proof. intros Hh Ht. unfold Str.strip. by rewrite (lstrip_id s Hh), (rstrip_id s Ht). Qed.

Lemma strip_strip s : Str.strip (Str.strip s) = Str.strip s.
Proof. apply strip_id; [apply strip_head|apply strip_tail]. Qed.

Lemma ink_head s : all_chars is_ink s = true → head_is Char.is_space s = false.
Proof.
  destruct s as [|c s]; simpl; [done|]. unfold is_ink.
  intros H. apply andb_prop in H as [Hc _]. by apply negb_true_iff.
Qed.

Lemma ink_tail s : all_chars is_ink s = true → tail_is Char.is_space s = false.
Proof.
  induction s as [|c s IH]; [done|]. simpl. unfold is_ink at 1.
  intros H. apply andb_prop in H as [Hc Hs].
  destruct s; [by apply negb_true_iff|by apply IH].
Qed.

Lemma all_chars_of_list p l :
  all_chars p (string_of_list_ascii l) = forallb p l.
Proof. induction l as [|c l IH]; simpl; [done|]. by rewrite IH. Qed.

(** A token of [split]: not empty, no blank inside. *)
Lemma split_aux_tokens cur s :
  forallb is_ink cur = true →
  Forall (λ tok, tok ≠ EmptyString ∧ all_chars is_ink tok = true) (Str.split_aux cur s).
Proof.
  assert (Hflush : ∀ cur rest,
            forallb is_ink cur = true →
            Forall (λ tok, tok ≠ EmptyString ∧ all_chars is_ink tok = true) rest →
            Forall (λ tok, tok ≠ EmptyString ∧ all_chars is_ink tok = true)
              match cur with
              | [] => rest
              | _ => string_of_list_ascii (rev cur) :: rest
              end).
  { intros [|c cur'] rest Hcur Hrest; [done|]. constructor; [|done]. split.
    - intros H. apply (f_equal list_ascii_of_string) in H.
      rewrite list_ascii_of_string_of_list_ascii in H. simpl in H.
      by apply app_eq_nil in H as [_ ?].
    - rewrite all_chars_of_list, forallb_forall. intros x Hx.
      apply in_rev in Hx. rewrite forallb_forall in Hcur. by apply Hcur. }
  revert cur. induction s as [|c s IH]; intros cur Hcur; simpl.
  - by apply Hflush.
  - destruct (Char.is_space c) eqn:Hc.
    + apply Hflush; [done|]. by apply IH.
    + apply IH. simpl. unfold is_ink at 1. by rewrite Hc.
Qed.

Lemma split_tokens s :
  Forall (λ tok, tok ≠ EmptyString ∧ all_chars is_ink tok = true) (Str.split s).
Proof. by apply split_aux_tokens. Qed.

Lemma tail_is_app p a b :
  b ≠ EmptyString → tail_is p (a +:+ b) = tail_is p b.
Proof.
  intros Hb. induction a as [|c a IH]; [done|].
  change (tail_is p (String c (a +:+ b)) = tail_is p b). simpl.
  destruct (a +:+ b) eqn:E; [|done].
  destruct a; [|done]. simpl in E. done.
Qed.

Lemma join_cons sep p q rest :
  Str.join sep (p :: q :: rest) = p +:+ sep +:+ Str.join sep (q :: rest).
Proof. reflexivity. Qed.

(** Tokens joined by one space have no blank at either end. *)
Lemma join_tokens toks :
  Forall (λ tok, tok ≠ EmptyString ∧ all_chars is_ink tok = true) toks →
  head_is Char.is_space (Str.join " " toks) = false
  ∧ tail_is Char.is_space (Str.join " " toks) = false
  ∧ (toks ≠ [] → Str.join " " toks ≠ EmptyString).
Proof.
  induction 1 as [|tok toks [Hne Hink] Htoks (IHh & IHt & IHne)]; [done|].
  destruct toks as [|q rest].
  - simpl. split; [by apply ink_head|]. split; [by apply ink_tail|done].
  - rewrite join_cons.
    assert (Hq : Str.join " " (q :: rest) ≠ EmptyString) by (by apply IHne).
    split; [|split].
    + destruct tok as [|c tok]; [done|].
      change (head_is Char.is_space (String c tok) = false). by apply ink_head.
    + rewrite tail_is_app; [|done].
      rewrite (tail_is_app _ " " _ Hq). exact IHt.
    + intros _. by destruct tok.
Qed.

(** ** Where the records come from *)

Lemma row_records_elem body row t :
  t ∈ row_records body row ↔ body row = Returns (Some t).
Proof.
  unfold row_records, row_step. destruct (body row) as [[t'|]|]; simpl.
  - rewrite list_elem_of_singleton. split; [by intros ->|by intros [= ->]].
  - rewrite elem_of_nil. split; [done|by intros [=]].
  - rewrite elem_of_nil. split; done.
Qed.

Lemma row_records_length body row : length (row_records body row) ≤ 1.
Proof. unfold row_records, row_step. by destruct (body row) as [[t'|]|]; simpl; lia. Qed.

Lemma flat_map_length_le {A B} (f : A → list B) (l : list A) n :
  (∀ x, length (f x) ≤ n) → length (flat_map f l) ≤ n * length l.
Proof.
  intros Hf. induction l as [|x l IH]; simpl; [lia|].
  rewrite length_app. specialize (Hf x). lia.
Qed.

Lemma process_table_unfold df :
  process_table [] df
  = if rejected df then []
    else flat_map
           (row_records
              (process_row (columns (clean df))
                 (positional_fallback (columns (clean df)) (classify (clean df)))))
           (rows (clean df)).
Proof.
  unfold process_table, rejected, normalize, column_mapping.
  destruct (too_small (clean df)); [done|].
  destruct (size (classify (clean df)) <? 2); [done|].
  by rewrite rows_loop_acc.
Qed.

(** Every record of the output was built by the row body from a row of
    the cleaned form of an accepted table. *)
Lemma record_origin tables t :
  t ∈ tables_loop tables →
  ∃ df row,
    df ∈ tables ∧ rejected df = false ∧ row ∈ rows (clean df)
    ∧ process_row (columns (clean df))
        (positional_fallback (columns (clean df)) (classify (clean df))) row
      = Returns (Some t).
Proof.
  rewrite tables_loop_flat, list_elem_of_In, in_flat_map.
  intros (df & Hdf & Ht). exists df. rewrite process_table_unfold in Ht.
  destruct (rejected df) eqn:Hrej; [done|].
  apply in_flat_map in Ht as (row & Hrow & Ht).
  exists row. rewrite !list_elem_of_In. repeat split; try done.
  by apply row_records_elem, list_elem_of_In.
Qed.

(** X6: a row gives at most one record.  A table contributes no more
    records than it has rows, and the whole output has no more records
    than the tables have rows in total. *)
Theorem at_most_one_record_per_row :
  (∀ df, length (process_table [] df) ≤ length (rows df))
  ∧ (∀ tables,
       length (tables_loop tables) ≤ sum_list_with (λ df, length (rows df)) tables).
Proof.
  assert (Htable : ∀ df, length (process_table [] df) ≤ length (rows df)).
  { intros df. rewrite process_table_unfold.
    destruct (rejected df); [simpl; lia|].
    match goal with |- length (flat_map ?f ?l) ≤ _ =>
      pose proof (flat_map_length_le f l 1 (row_records_length _)) end.
    pose proof (clean_rows_le df). lia. }
  split; [exact Htable|].
  intros tables. rewrite tables_loop_flat.
  induction tables as [|df tables IH]; [simpl; lia|].
  cbn [flat_map sum_list_with].
  rewrite length_app. apply Nat.add_le_mono; [apply Htable|exact IH].
Qed.

Lemma resolve_stripped cols col_map row key :
  Str.strip (resolve cols col_map row key) = resolve cols col_map row key.
Proof. unfold resolve. apply strip_strip. Qed.

Lemma split_value_unit_stripped value unit v u :
  value ≠ EmptyString →
  Str.strip value = value → Str.strip unit = unit →
  split_value_unit value unit = (v, u) →
  v ≠ EmptyString ∧ Str.strip v = v ∧ Str.strip u = u.
Proof.
  intros Hne Hv Hu. unfold split_value_unit.
  destruct (String.eqb unit EmptyString && Str.contains "/" value);
    [|by intros [= <- <-]].
  pose proof (split_tokens value) as Htoks.
  destruct (Str.split value) as [|tok toks]; [by intros [= <- <-]|].
  destruct toks as [|q rest]; [by intros [= <- <-]|].
  simpl. intros [= <- <-].
  inversion Htoks as [|? ? [Hne1 Hink1] Hrest]; subst.
  split; [done|]. split.
  - apply strip_id; [by apply ink_head|by apply ink_tail].
  - destruct (join_tokens (q :: rest) Hrest) as (Hh & Ht & _). by apply strip_id.
Qed.

(** X7: what every record of the output satisfies.  It was built by the
    row body from a row of the cleaned form of a table of the input that
    was not rejected, read with that table's mapping; its test_name and
    test_value are not empty, its test_name is none of the placeholders,
    and none of its four texts begins or ends with a blank. *)
Theorem records_are_clean (tables : list DataFrame) (t : LabTest) :
  t ∈ tables_loop tables →
  (∃ df row,
      df ∈ tables ∧ rejected df = false ∧ row ∈ rows (clean df)
      ∧ process_row (columns (clean df)) (final_mapping (clean df)) row
        = Returns (Some t))
  ∧ test_name t ≠ EmptyString
  ∧ blank (test_name t) = false
  ∧ test_value t ≠ EmptyString
  ∧ Str.strip (test_name t) = test_name t
  ∧ Str.strip (test_value t) = test_value t
  ∧ Str.strip (bio_reference_range t) = bio_reference_range t
  ∧ Str.strip (test_unit t) = test_unit t.
Proof.
  intros Ht. apply record_origin in Ht as (df & row & Hdf & Hacc & Hin & Hrow).
  split; [by exists df, row|].
  revert Hrow. unfold process_row.
  set (cols := columns (clean df)).
  set (m := positional_fallback cols (classify (clean df))).
  destruct (blank (resolve cols m row "test_name")) eqn:En; [done|].
  destruct (blank (resolve cols m row "test_value")) eqn:Ev; [done|].
  destruct (split_value_unit _ _) as [v u] eqn:Esplit.
  intros [= <-]. simpl.
  apply blank_false in En as Hn, Ev as Hv. destruct Hn as [Hn _], Hv as [Hv _].
  destruct (split_value_unit_stripped _ _ v u Hv
              (resolve_stripped cols m row "test_value")
              (resolve_stripped cols m row "test_unit") Esplit) as (H1 & H2 & H3).
  repeat split; try done; apply resolve_stripped.
Qed.

(** X7 on the first record of [report_table]. *)
Lemma records_are_clean_witness :
  let t := {| test_name := "Hemoglobin"; test_value := "16.5";
              bio_reference_range := "13.0-17.0"; test_unit := "g/dL";
              lab_test_out_of_range := false |} in
  test_name t ≠ EmptyString ∧ Str.strip (test_unit t) = test_unit t.
Proof.
  intros t.
  assert (H : t ∈ tables_loop [report_table]).
  { replace (tables_loop [report_table])
      with [t; {| test_name := "WBC Count"; test_value := "11200";
                  bio_reference_range := "4000-11000"; test_unit := "/cumm";
                  lab_test_out_of_range := true |}]
      by (vm_compute; reflexivity).
    left. }
  destruct (records_are_clean [report_table] t H) as (_ & H1 & _ & _ & _ & _ & _ & H2).
  exact (conj H1 H2).
Defined.

(** ** The mapping of an accepted table *)

Lemma position_of_key_role key i :
  position_of_key key = Some i → key ∈ role_keys.
Proof.
  unfold position_of_key, role_keys.
  destruct (String.eqb key "test_name") eqn:E1;
    [apply String.eqb_eq in E1 as ->; intros _; set_solver|].
  destruct (String.eqb key "test_value") eqn:E2;
    [apply String.eqb_eq in E2 as ->; intros _; set_solver|].
  destruct (String.eqb key "bio_reference_range") eqn:E3;
    [apply String.eqb_eq in E3 as ->; intros _; set_solver|].
  destruct (String.eqb key "test_unit") eqn:E4;
    [apply String.eqb_eq in E4 as ->; intros _; set_solver|].
  done.
Qed.

Lemma mapping_entry df key c :
  positional_fallback (columns df) (classify df) !! key = Some c →
  key ∈ role_keys ∧ c ∈ columns df.
Proof.
  rewrite positional_fallback_lookup.
  destruct (classify df !! key) as [c'|] eqn:E.
  - intros [= ->]. apply classify_sound in E as [Hin Hkey].
    split; [by eapply key_of_column_role|done].
  - destruct (position_of_key key) as [i|] eqn:Ei; [|done]. simpl. intros Hc.
    split; [by eapply position_of_key_role|].
    apply list_elem_of_lookup. eauto.
Qed.

Lemma mapping_size df :
  size (positional_fallback (columns df) (classify df)) ≤ 4.
Proof.
  rewrite <- size_dom.
  etrans; [apply (subseteq_size _ (list_to_set role_keys : gset string))|].
  - intros key Hkey. apply elem_of_dom in Hkey as [c Hc].
    apply mapping_entry in Hc as [Hrole _]. by apply elem_of_list_to_set.
  - by vm_compute.
Qed.

(** X8: the mapping the rows of an accepted table are read with.  It
    always maps test_name and test_value, and more generally every role
    whose fixed position (0, 1, 2, 3) exists in the table; it holds at most
    four keys, all of them role keys; and every column it names is a
    column of the table. *)
Theorem accepted_mapping (df : DataFrame) (m : gmap string label) :
  too_small df = false →
  column_mapping df = Some m →
  is_Some (m !! "test_name")
  ∧ is_Some (m !! "test_value")
  ∧ (∀ key i, position_of_key key = Some i → i < length (columns df) →
              is_Some (m !! key))
  ∧ (∀ key c, m !! key = Some c → key ∈ role_keys ∧ c ∈ columns df)
  ∧ size m ≤ 4.
Proof.
  unfold too_small, shape, column_mapping. simpl. intros Hsmall.
  apply orb_false_iff in Hsmall as [_ Hcols]. apply Nat.ltb_ge in Hcols.
  destruct (size (classify df) <? 2); [done|]. intros [= <-].
  assert (Hpos : ∀ key i, position_of_key key = Some i → i < length (columns df) →
            is_Some (positional_fallback (columns df) (classify df) !! key)).
  { intros key i Hkey Hi. rewrite positional_fallback_lookup.
    destruct (classify df !! key); [done|]. rewrite Hkey. simpl.
    by apply lookup_lt_is_Some_2. }
  split; [apply (Hpos "test_name" 0 eq_refl); lia|].
  split; [apply (Hpos "test_value" 1 eq_refl); lia|].
  split; [exact Hpos|]. split.
  - intros key c. apply mapping_entry.
  - apply mapping_size.
Qed.

(** X8 on [crossed_table]. *)
Lemma accepted_mapping_witness :
  ∃ m, column_mapping crossed_table = Some m
       ∧ is_Some (m !! "test_name") ∧ is_Some (m !! "test_value") ∧ size m ≤ 4.
Proof.
  eexists. split; [reflexivity|].
  destruct (accepted_mapping crossed_table _ eq_refl eq_refl) as (H1 & H2 & _ & _ & H4).
  exact (conj H1 (conj H2 H4)).
Defined.

(** ** Unmapped roles and missing cells *)

Lemma index_of_absent col cols : col ∉ cols → index_of col cols = None.
Proof.
  intros Hnot. unfold index_of.
  destruct (list_find (λ c, c = col) cols) as [[j c]|] eqn:E; [|done].
  apply list_find_Some in E as (Hj & -> & _).
  exfalso. apply Hnot. apply list_elem_of_lookup. eauto.
Qed.

Lemma resolve_unmapped cols (col_map : gmap string label) row key :
  col_map !! key = None → LStr EmptyString ∉ cols →
  resolve cols col_map row key = EmptyString.
Proof.
  intros Hkey Hcols. unfold resolve, row_get, col_map_get. rewrite Hkey. simpl.
  by rewrite (index_of_absent _ _ Hcols).
Qed.

Lemma resolve_missing cols (col_map : gmap string label) row key c j x :
  col_map !! key = Some c → index_of c cols = Some j → row !! j = Some x →
  isna x = true →
  resolve cols col_map row key = str_cell x.
Proof.
  intros Hkey Hj Hx Hna. unfold resolve, row_get, col_map_get.
  rewrite Hkey. simpl. rewrite Hj, Hx. simpl. by destruct x.
Qed.

Lemma is_out_of_range_no_match value ref_range :
  Re.rmatch range_pattern ref_range = None → is_out_of_range value ref_range = None.
Proof.
  intros H. unfold is_out_of_range. rewrite (parse_no_match _ H). unfold float.
  by destruct (Float.of_string value).
Qed.

Lemma process_row_fields cols (col_map : gmap string label) row t :
  process_row cols col_map row = Returns (Some t) →
  test_name t = resolve cols col_map row "test_name"
  ∧ bio_reference_range t = resolve cols col_map row "bio_reference_range"
  ∧ (test_value t, test_unit t)
    = split_value_unit (resolve cols col_map row "test_value")
                       (resolve cols col_map row "test_unit")
  ∧ lab_test_out_of_range t
    = flag (is_out_of_range (test_value t) (bio_reference_range t)).
Proof.
  unfold process_row.
  destruct (blank _); [done|]. destruct (blank _); [done|].
  destruct (split_value_unit _ _) as [v u]. by intros [= <-].
Qed.

(** X9: a role with no column.  When no key maps the reference range (and
    no column is labelled with the empty text, which is what an unmapped
    role is looked up under), every record of the table has an empty
    bio_reference_range and is flagged in range. *)
Theorem unmapped_range_is_empty cols (col_map : gmap string label) row t :
  col_map !! "bio_reference_range" = None →
  LStr EmptyString ∉ cols →
  process_row cols col_map row = Returns (Some t) →
  bio_reference_range t = EmptyString ∧ lab_test_out_of_range t = false.
Proof.
  intros Hkey Hcols Ht.
  apply process_row_fields in Ht as (_ & Hrange & _ & Hflag).
  rewrite (resolve_unmapped _ _ _ _ Hkey Hcols) in Hrange.
  split; [done|]. rewrite Hflag, Hrange.
  by rewrite (is_out_of_range_no_match _ EmptyString eq_refl).
Qed.

(** X9 on the first row of the cleaned [sparse_table], which has two
    columns and no range. *)
Lemma unmapped_range_is_empty_witness :
  let cols := [LInt 0; LInt 2] in
  let col_map : gmap string label :=
    <["test_value" := LInt 2]> (<["test_name" := LInt 0]> ∅) in
  let row := [CStr "Hemoglobin"; CStr "12.5 g/dL"] in
  let t := {| test_name := "Hemoglobin"; test_value := "12.5";
              bio_reference_range := EmptyString; test_unit := "g/dL";
              lab_test_out_of_range := false |} in
  process_row cols col_map row = Returns (Some t)
  ∧ bio_reference_range t = EmptyString ∧ lab_test_out_of_range t = false.
Proof.
  intros cols col_map row t.
  assert (Ht : process_row cols col_map row = Returns (Some t))
    by (vm_compute; reflexivity).
  split; [exact Ht|].
  apply (unmapped_range_is_empty cols col_map row t); [vm_compute; reflexivity| |exact Ht].
  unfold cols. rewrite !not_elem_of_cons. repeat split; try done. apply not_elem_of_nil.
Defined.

(** X10: a missing cell is reported as text.  When the column mapped to
    the unit holds no value in a row ([None] or [np.nan]), the record's
    test_unit is the text "None" or "nan" and the value is not split; when
    the column mapped to the reference range holds no value, the record's
    bio_reference_range is that text and the record is flagged in
    range. *)
Theorem missing_cell_is_text cols (col_map : gmap string label) row t key c j x :
  process_row cols col_map row = Returns (Some t) →
  col_map !! key = Some c →
  index_of c cols = Some j →
  row !! j = Some x →
  isna x = true →
  (key = "test_unit" →
     test_unit t = str_cell x
     ∧ test_value t = resolve cols col_map row "test_value")
  ∧ (key = "bio_reference_range" →
     bio_reference_range t = str_cell x ∧ lab_test_out_of_range t = false).
Proof.
  intros Ht Hkey Hj Hx Hna.
  apply process_row_fields in Ht as (_ & Hrange & Hsplit & Hflag).
  pose proof (resolve_missing cols col_map row key c j x Hkey Hj Hx Hna) as Hres.
  split; intros ->.
  - rewrite Hres in Hsplit. unfold split_value_unit in Hsplit.
    destruct x; try done; simpl in Hsplit; by injection Hsplit as -> ->.
  - rewrite Hres in Hrange. split; [done|]. rewrite Hflag, Hrange.
    destruct x; try done; by rewrite is_out_of_range_no_match.
Qed.

(** X10 on a row whose unit cell is [np.nan]. *)
Lemma missing_cell_is_text_witness :
  let cols := columns report_table in
  let col_map := positional_fallback cols (classify report_table) in
  let row := [CStr "Hemoglobin"; CStr "16.5 g/dL"; CStr "13.0-17.0"; CNaN] in
  let t := {| test_name := "Hemoglobin"; test_value := "16.5 g/dL";
              bio_reference_range := "13.0-17.0"; test_unit := "nan";
              lab_test_out_of_range := false |} in
  process_row cols col_map row = Returns (Some t)
  ∧ test_unit t = "nan" ∧ test_value t = "16.5 g/dL".
Proof.
  intros cols col_map row t.
  assert (Ht : process_row cols col_map row = Returns (Some t))
    by (vm_compute; reflexivity).
  split; [exact Ht|].
  apply (proj1 (missing_cell_is_text cols col_map row t "test_unit" (LStr "Unit") 3 CNaN
                  Ht ltac:(vm_compute; reflexivity) ltac:(vm_compute; reflexivity)
                  eq_refl eq_refl)).
  reflexivity.
Defined.

(** ** More on the cleaning steps *)

Lemma select_sublist {A} (mask : list bool) (l : list A) :
  select mask l `sublist_of` l.
Proof.
  revert l. induction mask as [|b mask IH]; intros [|x l]; simpl;
    try apply sublist_nil_l.
  destruct b; [by apply sublist_skip|by apply sublist_cons].
Qed.

(** X11: cleaning keeps the order and invents nothing.  The labels left
    are a subsequence of the labels of the input, the rows left come in
    order from the rows of the input, and the cells of each row left are a
    subsequence of the cells of its input row after the two replacements. *)
Theorem clean_keeps_order (df : DataFrame) :
  columns (clean df) `sublist_of` columns df
  ∧ ∃ kept,
      kept `sublist_of`
        map (map (λ c, replace_cell EmptyString (replace_cell "None" c))) (rows df)
      ∧ Forall2 (λ out row, out `sublist_of` row) (rows (clean df)) kept.
Proof.
  rewrite clean_unfold. simpl. split; [apply select_sublist|].
  exists (kept_rows df). split.
  - unfold kept_rows, dropna_rows, replace. simpl.
    assert (Hmap : map (map (replace_cell EmptyString))
                     (map (map (replace_cell "None")) (rows df))
                   = map (map (λ c, replace_cell EmptyString (replace_cell "None" c)))
                       (rows df)).
    { rewrite map_map. apply map_ext. intros row. by rewrite map_map. }
    rewrite Hmap. apply sublist_filter.
  - apply Forall2_fmap_l, Forall_Forall2_diag, Forall_forall.
    intros row _. apply select_sublist.
Qed.

(** X12: cleaning beforehand changes nothing.  For rectangular tables,
    cleaning a cleaned table is the identity, the cleaned table is accepted
    or rejected as the table is, and the records extracted from the tables
    are those extracted from their cleaned forms. *)
Theorem cleaning_is_absorbed :
  (∀ df, rectangular df →
     clean (clean df) = clean df
     ∧ normalize (clean df) = normalize df
     ∧ process_table [] (clean df) = process_table [] df)
  ∧ (∀ tables, Forall rectangular tables →
       tables_loop (clean <$> tables) = tables_loop tables).
Proof.
  assert (Hone : ∀ df, rectangular df →
            clean (clean df) = clean df
            ∧ normalize (clean df) = normalize df
            ∧ process_table [] (clean df) = process_table [] df).
  { intros df Hrect.
    pose proof (normal_clean_id (clean df) (clean_normal df Hrect)) as Hid.
    split; [done|]. split.
    - unfold normalize. by rewrite Hid.
    - unfold process_table. by rewrite Hid. }
  split; [exact Hone|].
  intros tables Hall. rewrite !tables_loop_flat.
  induction Hall as [|df tables Hdf _ IH]; [done|].
  rewrite fmap_cons. cbn [flat_map]. rewrite IH.
  by destruct (Hone df Hdf) as (_ & _ & ->).
Qed.

(** X12 on [sparse_table]. *)
Lemma cleaning_is_absorbed_witness :
  clean (clean sparse_table) = clean sparse_table
  ∧ tables_loop (clean <$> [sparse_table]) = tables_loop [sparse_table].
Proof.
  assert (H : rectangular sparse_table) by (repeat constructor).
  split.
  - exact (proj1 (proj1 cleaning_is_absorbed sparse_table H)).
  - apply (proj2 cleaning_is_absorbed [sparse_table]). by constructor.
Defined.

(** ** The value pattern and the pair pattern *)

Section GreedySuccess.
Context {A : Type}.
Variable p : ascii → bool.
Variable k : string → Re.progress → option A.

(** Backtracking finds a match whenever some split of the run leads to
    one. *)
Lemma star_some r s st :
  all_chars p r = true →
  is_Some (k s (eat_all r st)) →
  is_Some (Re.star p k (r +:+ s) st).
Proof.
  revert st. induction r as [|c r IH]; intros st Hall Hk.
  - change (EmptyString +:+ s) with s. simpl in Hk.
    destruct s as [|c s]; simpl; [done|].
    destruct (p c); [|done]. destruct (Re.star p k s (Re.eat c st)); [by eexists|done].
  - change (String c r +:+ s) with (String c (r +:+ s)). simpl in *.
    apply andb_prop in Hall as [Hc Hall]. rewrite Hc.
    destruct (IH (Re.eat c st) Hall Hk) as [y ->]. by eexists.
Qed.

Lemma plus_some r s st :
  r ≠ EmptyString →
  all_chars p r = true →
  is_Some (k s (eat_all r st)) →
  is_Some (Re.plus p k (r +:+ s) st).
Proof.
  destruct r as [|c r]; [done|]. intros _ Hall Hk.
  change (String c r +:+ s) with (String c (r +:+ s)). simpl in *.
  apply andb_prop in Hall as [Hc Hall]. rewrite Hc. by apply star_some.
Qed.

Lemma opt_skip_some s st :
  is_Some (k s st) → is_Some (Re.opt p k s st).
Proof.
  intros Hk. destruct s as [|c s]; simpl; [done|].
  destruct (p c); [|done]. destruct (k s (Re.eat c st)); [by eexists|done].
Qed.

Lemma opt_take_some c s st :
  p c = true → is_Some (k s (Re.eat c st)) → is_Some (Re.opt p k (String c s) st).
Proof. intros Hc [y Hy]. simpl. rewrite Hc, Hy. by eexists. Qed.

Lemma opt_inv s st x :
  Re.opt p k s st = Some x →
  k s st = Some x
  ∨ ∃ c rest, s = String c rest ∧ p c = true ∧ k rest (Re.eat c st) = Some x.
Proof.
  destruct s as [|c s]; simpl; [by left|].
  destruct (p c) eqn:Hc; [|by left].
  destruct (k s (Re.eat c st)) as [y|] eqn:E; simpl.
  - intros [= <-]. right. by exists c, s.
  - by left.
Qed.
End GreedySuccess.

Lemma run_bol k s st :
  Re.run (Re.Bol :: k) s st = if Nat.eqb (Re.consumed st) 0 then Re.run k s st else None.
Proof. reflexivity. Qed.

Lemma run_eol k s st :
  Re.run (Re.Eol :: k) s st = if Re.at_eol s then Re.run k s st else None.
Proof. reflexivity. Qed.

Lemma run_opt p k s st : Re.run (Re.Opt p :: k) s st = Re.opt p (Re.run k) s st.
Proof. reflexivity. Qed.

Lemma matches_true re s : Re.matches re s = true ↔ is_Some (Re.rmatch re s).
Proof.
  unfold Re.matches. destruct (Re.rmatch re s) as [m|].
  - split; [by eexists|done].
  - split; [done|by intros [? ?]].
Qed.

Lemma at_eol_cases e : Re.at_eol e = true ↔ e = EmptyString ∨ e = String "010" EmptyString.
Proof.
  destruct e as [|c [|c' e]]; cbn [Re.at_eol].
  - split; [by left|done].
  - split.
    + intros H. right. unfold Char.lit in H. apply Ascii.eqb_eq in H. by subst.
    + intros [H|H]; [done|]. injection H as ->. reflexivity.
  - split; [done|]. by intros [H|H].
Qed.

(** X13: the texts the value rule accepts.  A cell takes the test-value
    branch exactly when its text is digits, an optional point, at least
    one more digit, then optional blanks and optional letters or slashes,
    up to the end (or a final newline): "16.5", ".5", "11200", "12.5 g/dL"
    and "5mg" do, "-3", "<5", "1,200", "5." and "13.0-17.0" do not. *)
Theorem value_pattern_language (s : string) :
  Re.matches value_pattern s = true ↔
  ∃ a o b w u e,
    s = a +:+ o +:+ b +:+ w +:+ u +:+ e
    ∧ all_chars Char.is_digit a = true
    ∧ (o = EmptyString ∨ o = ".")
    ∧ b ≠ EmptyString ∧ all_chars Char.is_digit b = true
    ∧ all_chars Char.is_space w = true
    ∧ all_chars unit_char u = true
    ∧ (e = EmptyString ∨ e = String "010" EmptyString).
Proof.
  rewrite matches_true. unfold Re.rmatch, value_pattern. rewrite run_bol. simpl Nat.eqb.
  cbv iota. rewrite run_star. split.
  - intros [x H].
    apply star_inv in H as (a & s1 & -> & Ha & H & _). rewrite run_opt in H.
    assert (Hrest : ∀ s2 st,
              Re.run [Re.Plus Char.is_digit; Re.Star Char.is_space;
                      Re.Star (Char.either Char.is_alpha (Char.lit "/")); Re.Eol] s2 st
              = Some x →
              ∃ b w u e, s2 = b +:+ w +:+ u +:+ e
                         ∧ b ≠ EmptyString ∧ all_chars Char.is_digit b = true
                         ∧ all_chars Char.is_space w = true
                         ∧ all_chars unit_char u = true
                         ∧ (e = EmptyString ∨ e = String "010" EmptyString)).
    { intros s2 st H2. rewrite run_plus in H2.
      apply plus_inv in H2 as (b & s3 & -> & Hbne & Hb & H2 & _).
      rewrite run_star in H2. apply star_inv in H2 as (w & s4 & -> & Hw & H2 & _).
      rewrite run_star in H2. apply star_inv in H2 as (u & e & -> & Hu & H2 & _).
      rewrite run_eol in H2. destruct (Re.at_eol e) eqn:He; [|done].
      apply at_eol_cases in He. exists b, w, u, e. by repeat split. }
    apply opt_inv in H as [H|(c & s2 & -> & Hc & H)].
    + destruct (Hrest _ _ H) as (b & w & u & e & -> & ?).
      exists a, EmptyString, b, w, u, e. split; [done|]. split; [done|].
      split; [by left|done].
    + destruct (Hrest _ _ H) as (b & w & u & e & -> & ?).
      unfold Char.lit in Hc. apply Ascii.eqb_eq in Hc as <-.
      exists a, ".", b, w, u, e. split; [done|]. split; [done|].
      split; [by right|done].
  - intros (a & o & b & w & u & e & -> & Ha & Ho & Hbne & Hb & Hw & Hu & He).
    apply star_some; [done|]. rewrite run_opt.
    assert (Hrest : ∀ st,
              is_Some (Re.run [Re.Plus Char.is_digit; Re.Star Char.is_space;
                               Re.Star (Char.either Char.is_alpha (Char.lit "/")); Re.Eol]
                         (b +:+ w +:+ u +:+ e) st)).
    { intros st. rewrite run_plus. apply plus_some; [done..|].
      rewrite run_star. apply star_some; [done|].
      rewrite run_star. apply star_some; [done|].
      rewrite run_eol. apply at_eol_cases in He. rewrite He. rewrite run_nil. by eexists. }
    destruct Ho as [-> | ->].
    + apply opt_skip_some. apply Hrest.
    + change ("." +:+ b +:+ w +:+ u +:+ e) with (String "." (b +:+ w +:+ u +:+ e)).
      apply opt_take_some; [done|]. apply Hrest.
Qed.

(** The texts the pair rule accepts: a run of digits and points, at least
    one blank or hyphen, and a digit or point, at the start of the text. *)
Lemma pair_pattern_language (s : string) :
  Re.matches pair_pattern s = true ↔
  ∃ d1 g d2 rest,
    s = d1 +:+ g +:+ d2 +:+ rest
    ∧ number_text d1 = true
    ∧ g ≠ EmptyString ∧ all_chars gap_char g = true
    ∧ number_text d2 = true.
Proof.
  rewrite matches_true. unfold Re.rmatch, pair_pattern. rewrite run_plus. split.
  - intros [x H].
    apply plus_inv in H as (d1 & s1 & -> & Hne1 & Hd1 & H & _).
    rewrite run_plus in H. apply plus_inv in H as (g & s2 & -> & Hgne & Hg & H & _).
    rewrite run_plus in H. apply plus_inv in H as (d2 & rest & -> & Hne2 & Hd2 & H & _).
    exists d1, g, d2, rest. repeat split; try done; by apply number_text_intro.
  - intros (d1 & g & d2 & rest & -> & Hd1 & Hgne & Hg & Hd2).
    apply number_text_inv in Hd1 as [Hne1 Hall1], Hd2 as [Hne2 Hall2].
    apply plus_some; [done..|]. rewrite run_plus. apply plus_some; [done..|].
    rewrite run_plus. apply plus_some; [done..|]. rewrite run_nil. by eexists.
Qed.

Lemma append_assoc a b c : (a +:+ b) +:+ c = a +:+ (b +:+ c).
Proof.
  induction a as [|x a IH]; [done|].
  change (String x ((a +:+ b) +:+ c) = String x (a +:+ (b +:+ c))). by rewrite IH.
Qed.

Lemma all_chars_impl (p q : ascii → bool) s :
  (∀ c, p c = true → q c = true) → all_chars p s = true → all_chars q s = true.
Proof.
  intros Hpq. induction s as [|c s IH]; simpl; [done|].
  intros H. apply andb_prop in H as [Hc Hs]. by rewrite (Hpq c Hc), (IH Hs).
Qed.

Lemma range_match_is_pair s m :
  Re.rmatch range_pattern s = Some m → Re.matches pair_pattern s = true.
Proof.
  intros H. apply range_pattern_match_iff in H
    as (d1 & w1 & w2 & d2 & rest & -> & _ & H1 & H2 & H3 & H4 & _).
  apply pair_pattern_language. exists d1, (w1 +:+ "-" +:+ w2), d2, rest.
  split; [by rewrite !append_assoc|]. split; [done|]. split.
  { destruct w1; done. }
  split; [|done].
  rewrite !all_chars_app.
  rewrite (all_chars_impl Char.is_space gap_char w1), (all_chars_impl Char.is_space gap_char w2);
    try done; intros c Hc; unfold gap_char, Char.either; by rewrite Hc.
Qed.

(** X14: a column with a readable range never falls through to the unit
    or header rules.  When some cell of the column, stripped, is a text
    [parse_reference_range] matches, the column takes the test-name, the
    test-value or the reference-range branch. *)
Theorem readable_range_claims_by_content
    (col_lower : string) (values : list string) (val : string) (m : list string) :
  val ∈ values →
  Re.rmatch range_pattern (Str.strip val) = Some m →
  claimed_key col_lower values = Some "test_name"
  ∨ claimed_key col_lower values = Some "test_value"
  ∨ claimed_key col_lower values = Some "bio_reference_range".
Proof.
  intros Hin Hm. apply range_match_is_pair in Hm.
  assert (Hpair : any_match pair_pattern values = true).
  { unfold any_match. apply existsb_exists. exists val. by rewrite <- list_elem_of_In. }
  unfold claimed_key. rewrite Hpair.
  destruct (any_word name_words values); [by left|].
  destruct (any_match value_pattern values); [right; by left|right; by right].
Qed.

(** X14 on the range column of [report_table]. *)
Lemma readable_range_claims_by_content_witness :
  claimed_key "bio. ref. range" ["13.0-17.0"; "4000-11000"] = Some "test_name"
  ∨ claimed_key "bio. ref. range" ["13.0-17.0"; "4000-11000"] = Some "test_value"
  ∨ claimed_key "bio. ref. range" ["13.0-17.0"; "4000-11000"] = Some "bio_reference_range".
Proof.
  apply (readable_range_claims_by_content _ _ "13.0-17.0" ["13.0"; "17.0"]).
  - left.
  - vm_compute. reflexivity.
Defined.

(** ** Columns labelled by position *)

Lemma uint_chars d : all_chars Char.is_digit (NilEmpty.string_of_uint d) = true.
Proof. induction d; simpl; try done; by rewrite IHd. Qed.

Lemma str_label_int_chars n : all_chars signed_digit (str_label (LInt n)) = true.
Proof.
  assert (Hu : ∀ d, all_chars signed_digit (NilZero.string_of_uint d) = true).
  { intros d. apply (all_chars_impl Char.is_digit).
    - intros c Hc. unfold signed_digit, Char.either. by rewrite Hc.
    - destruct d; try apply uint_chars. done. }
  unfold str_label, NilZero.string_of_int.
  destruct (Z.to_int n); [apply Hu|]. simpl. apply Hu.
Qed.

Lemma lower_signed_digit s :
  all_chars signed_digit s = true →
  all_chars signed_digit (Str.lower s) = true.
Proof.
  induction s as [|c s IH]; simpl; [done|].
  intros H. apply andb_prop in H as [Hc Hs]. rewrite (IH Hs), andb_true_r.
  revert Hc. destruct c as [[] [] [] [] [] [] [] []]; vm_compute; congruence.
Qed.

Lemma letter_not_signed_digit a c :
  Char.is_alpha a = true → signed_digit c = true → a ≠ c.
Proof.
  intros Ha Hc ->. revert Ha Hc.
  destruct c as [[] [] [] [] [] [] [] []]; vm_compute; congruence.
Qed.

(** A word that starts with a letter does not occur in a text of digits
    and minus signs. *)
Lemma contains_word_in_number w s :
  head_is Char.is_alpha w = true →
  all_chars signed_digit s = true →
  Str.contains w s = false.
Proof.
  destruct w as [|a w]; [done|]. simpl. intros Ha.
  induction s as [|c s IH]; simpl; [done|].
  intros H. apply andb_prop in H as [Hc Hs]. rewrite (IH Hs), orb_false_r.
  destruct (ascii_dec a c) as [Heq|Hne]; [|done].
  by destruct (letter_not_signed_digit a c Ha Hc).
Qed.

(** X15: the header rules never fire for a column labelled by an integer,
    as the columns of a table built without a header are.  Its key is
    decided by its cells alone: test_name, test_value,
    bio_reference_range or test_unit by the four content rules in that
    order, and no key when none of them applies. *)
Theorem integer_label_uses_content_only (n : Z) (values : list string) :
  claimed_key (Str.lower (str_label (LInt n))) values
  = if any_word name_words values then Some "test_name"
    else if any_match value_pattern values then Some "test_value"
    else if any_match pair_pattern values then Some "bio_reference_range"
    else if any_word unit_words values then Some "test_unit"
    else None.
Proof.
  pose proof (lower_signed_digit _ (str_label_int_chars n)) as Hchars.
  unfold claimed_key.
  rewrite (contains_word_in_number "test" _ eq_refl Hchars),
    (contains_word_in_number "name" _ eq_refl Hchars),
    (contains_word_in_number "parameter" _ eq_refl Hchars),
    (contains_word_in_number "value" _ eq_refl Hchars),
    (contains_word_in_number "result" _ eq_refl Hchars),
    (contains_word_in_number "range" _ eq_refl Hchars),
    (contains_word_in_number "reference" _ eq_refl Hchars),
    (contains_word_in_number "unit" _ eq_refl Hchars).
  reflexivity.
Qed.

(** ** When two roles share a column *)

Lemma position_of_key_inj k1 k2 i :
  position_of_key k1 = Some i → position_of_key k2 = Some i → k1 = k2.
Proof.
  unfold position_of_key. intros H1 H2.
  repeat match type of H1 with
         | context [String.eqb ?a ?b] =>
             let E := fresh "E" in
             destruct (String.eqb a b) eqn:E; [apply String.eqb_eq in E|]
         end;
  repeat match type of H2 with
         | context [String.eqb ?a ?b] =>
             let E := fresh "E" in
             destruct (String.eqb a b) eqn:E; [apply String.eqb_eq in E|]
         end;
  congruence.
Qed.

(** X16: how two roles come to share a column.  With distinct labels, two
    different keys of the final mapping hold the same column only when
    one of them was set by the rules of the loop and the other was filled
    by position: two keys set by the rules never share, and two keys
    filled by position never share. *)
Theorem shared_column_needs_fallback (df : DataFrame) (k1 k2 : string) (c : label) :
  NoDup (columns df) →
  k1 ≠ k2 →
  positional_fallback (columns df) (classify df) !! k1 = Some c →
  positional_fallback (columns df) (classify df) !! k2 = Some c →
  (is_Some (classify df !! k1) ∧ classify df !! k2 = None)
  ∨ (classify df !! k1 = None ∧ is_Some (classify df !! k2)).
Proof.
  intros Hnodup Hne. rewrite !positional_fallback_lookup.
  destruct (classify df !! k1) as [c1|] eqn:E1, (classify df !! k2) as [c2|] eqn:E2.
  - intros [= ->] [= ->]. destruct Hne. by eapply classify_injective.
  - intros _ _. left. by split; [eexists|].
  - intros _ _. right. by split; [|eexists].
  - destruct (position_of_key k1) as [i1|] eqn:P1; [|done].
    destruct (position_of_key k2) as [i2|] eqn:P2; [|done]. simpl.
    intros H1 H2. destruct Hne.
    assert (i1 = i2) as -> by (by eapply NoDup_lookup).
    by eapply position_of_key_inj.
Qed.

(** X16 on [crossed_table]: column 0 is held by bio_reference_range, set
    by the range rule, and by test_name, filled by position. *)
Lemma shared_column_needs_fallback_witness :
  (is_Some (classify crossed_table !! "bio_reference_range")
   ∧ classify crossed_table !! "test_name" = None)
  ∨ (classify crossed_table !! "bio_reference_range" = None
     ∧ is_Some (classify crossed_table !! "test_name")).
Proof.
  apply (shared_column_needs_fallback crossed_table
           "bio_reference_range" "test_name" (LInt 0)).
  - apply (bool_decide_unpack _). by vm_compute.
  - done.
  - vm_compute. reflexivity.
  - vm_compute. reflexivity.
Defined.

(** ** Rows that are skipped *)

(** X17: a row whose test_name cell or test_value cell holds no value
    ([None] or [np.nan]) gives no record. *)
Theorem missing_name_or_value_skips cols (col_map : gmap string label) row key c j x :
  key = "test_name" ∨ key = "test_value" →
  col_map !! key = Some c →
  index_of c cols = Some j →
  row !! j = Some x →
  isna x = true →
  process_row cols col_map row = Returns None.
Proof.
  intros Hkey Hc Hj Hx Hna.
  pose proof (resolve_missing cols col_map row key c j x Hc Hj Hx Hna) as Hres.
  assert (Hblank : blank (str_cell x) = true) by (by destruct x).
  unfold process_row. cbv zeta. destruct Hkey as [-> | ->].
  - rewrite Hres, Hblank. reflexivity.
  - rewrite Hres, Hblank.
    destruct (blank (resolve cols col_map row "test_name")); reflexivity.
Qed.

(** X17 on the third row of [report_table] after cleaning, whose value
    cell was empty. *)
Lemma missing_name_or_value_skips_witness :
  process_row (columns report_table)
    (positional_fallback (columns report_table) (classify report_table))
    [CStr "Glucose"; CNaN; CStr "70-110"; CStr "mg/dL"]
  = Returns None.
Proof.
  apply (missing_name_or_value_skips _ _ _ "test_value" (LStr "Result") 1 CNaN).
  - by right.
  - vm_compute. reflexivity.
  - vm_compute. reflexivity.
  - reflexivity.
  - reflexivity.
Defined.
